(** * PylonSample_HDR_OpenCV: exposure-bracket acquisition and fusion

    A shallow embedding of the two sample programs

    - [PylonSample_HDR_OpenCV_Advanced.cpp] (sequencer + frame-burst trigger)
    - [PylonSample_HDR_OpenCV_Simple.cpp]   (one software trigger per frame)

    The camera is a record of the registers the programs write and read
    back, exposure times are binary64 numbers, the grab loop is a
    state-passing function over the outcomes of [RetrieveResult], and
    everything the programs do to the outside world is recorded as a trace
    of events. *)

From Stdlib Require Import ZArith QArith Qpower Lqa List String Lia.
From Stdlib Require Import Floats.SpecFloat.
From stdpp Require Import base list gmap.

Local Open Scope Z_scope.

(** ** [double]: IEEE 754 binary64, rounding to nearest even *)

Definition double : Type := spec_float.

Module Double.

Definition prec : Z := 53.
Definition emax : Z := 1024.

Definition add (x y : double) : double := SFadd prec emax x y.
Definition sub (x y : double) : double := SFsub prec emax x y.
Definition div (x y : double) : double := SFdiv prec emax x y.

(** Conversion of an integer to [double]: the integer literals of the
    constants, and [c_imagesPerHDR] as the divisor of the increment. *)
Definition of_Z (z : Z) : double := binary_normalize prec emax z 0 false.

(** The number a finite [double] stands for. *)
Definition value (x : double) : option Q :=
  match x with
  | S754_zero _ => Some 0%Q
  | S754_finite s m e => Some (inject_Z (cond_Zopp s (Zpos m)) * 2 ^ e)%Q
  | S754_infinity _ | S754_nan => None
  end.

(** The order of the finite [double]s. *)
Definition lt (x y : double) : Prop :=
  match value x, value y with
  | Some a, Some b => (a < b)%Q
  | _, _ => False
  end.

Definition le (x y : double) : Prop :=
  match value x, value y with
  | Some a, Some b => (a <= b)%Q
  | _, _ => False
  end.

End Double.

Arguments Double.add : simpl never.
Arguments Double.sub : simpl never.
Arguments Double.div : simpl never.
Arguments Double.of_Z : simpl never.

(** ** Constants of the two programs (identical in both files) *)

Definition c_countOfImagesToGrab : Z := 1000.
Definition c_imagesPerHDR : Z := 3.
Definition c_lowExposureTime : double := Double.of_Z 100.
Definition c_highExposureTime : double := Double.of_Z 100000.

(** [uint32_t] arithmetic: [c_imagesPerHDR - 1] is computed modulo 2^32. *)
Definition wrap32 (z : Z) : Z := z mod 2 ^ 32.

(** Largest value of the loop counter [int i]. *)
Definition INT_MAX : Z := 2 ^ 31 - 1.

(** ** The camera registers *)

(** What [SequencerSetSave] stores for the selected set. *)
Record SequencerSet := mkSequencerSet {
  set_ExposureTime : double;
  set_SequencerSetNext : Z;
  set_SequencerPathSelector : Z
}.

Inductive TriggerSelectorEnums := TriggerSelector_FrameStart | TriggerSelector_FrameBurstStart.

Record Camera := mkCamera {
  SequencerMode_IsWritable : bool;
  SequencerMode : bool;
  SequencerConfigurationMode : bool;
  SequencerSetSelector : Z;
  ExposureTime : double;
  SequencerSetNext : Z;
  SequencerPathSelector : Z;
  SequencerSets : gmap Z SequencerSet;
  TriggerSelector : TriggerSelectorEnums;
  AcquisitionBurstFrameCount : Z;
  TriggerMode : bool;
  TriggerSource_Software : bool;
  MaxNumBuffer : Z
}.

Module Reg.

Definition SequencerMode_FromString (b : bool) (c : Camera) : Camera :=
  mkCamera (SequencerMode_IsWritable c) b (SequencerConfigurationMode c) (SequencerSetSelector c) (ExposureTime c)
    (SequencerSetNext c) (SequencerPathSelector c) (SequencerSets c) (TriggerSelector c)
    (AcquisitionBurstFrameCount c) (TriggerMode c) (TriggerSource_Software c) (MaxNumBuffer c).

Definition SequencerConfigurationMode_FromString (b : bool) (c : Camera) : Camera :=
  mkCamera (SequencerMode_IsWritable c) (SequencerMode c) b (SequencerSetSelector c) (ExposureTime c)
    (SequencerSetNext c) (SequencerPathSelector c) (SequencerSets c) (TriggerSelector c)
    (AcquisitionBurstFrameCount c) (TriggerMode c) (TriggerSource_Software c) (MaxNumBuffer c).

Definition SequencerSetSelector_SetValue (i : Z) (c : Camera) : Camera :=
  mkCamera (SequencerMode_IsWritable c) (SequencerMode c) (SequencerConfigurationMode c) i (ExposureTime c)
    (SequencerSetNext c) (SequencerPathSelector c) (SequencerSets c) (TriggerSelector c)
    (AcquisitionBurstFrameCount c) (TriggerMode c) (TriggerSource_Software c) (MaxNumBuffer c).

Definition ExposureTime_SetValue (e : double) (c : Camera) : Camera :=
  mkCamera (SequencerMode_IsWritable c) (SequencerMode c) (SequencerConfigurationMode c) (SequencerSetSelector c) e
    (SequencerSetNext c) (SequencerPathSelector c) (SequencerSets c) (TriggerSelector c)
    (AcquisitionBurstFrameCount c) (TriggerMode c) (TriggerSource_Software c) (MaxNumBuffer c).

Definition SequencerSetNext_SetValue (n : Z) (c : Camera) : Camera :=
  mkCamera (SequencerMode_IsWritable c) (SequencerMode c) (SequencerConfigurationMode c) (SequencerSetSelector c) (ExposureTime c)
    n (SequencerPathSelector c) (SequencerSets c) (TriggerSelector c)
    (AcquisitionBurstFrameCount c) (TriggerMode c) (TriggerSource_Software c) (MaxNumBuffer c).

Definition SequencerPathSelector_SetValue (p : Z) (c : Camera) : Camera :=
  mkCamera (SequencerMode_IsWritable c) (SequencerMode c) (SequencerConfigurationMode c) (SequencerSetSelector c) (ExposureTime c)
    (SequencerSetNext c) p (SequencerSets c) (TriggerSelector c)
    (AcquisitionBurstFrameCount c) (TriggerMode c) (TriggerSource_Software c) (MaxNumBuffer c).

(** [SequencerSetSave.Execute()]: the current register values are stored in
    the set that [SequencerSetSelector] points at. *)
Definition SequencerSetSave_Execute (c : Camera) : Camera :=
  mkCamera (SequencerMode_IsWritable c) (SequencerMode c) (SequencerConfigurationMode c) (SequencerSetSelector c) (ExposureTime c)
    (SequencerSetNext c) (SequencerPathSelector c)
    (<[SequencerSetSelector c :=
         mkSequencerSet (ExposureTime c) (SequencerSetNext c) (SequencerPathSelector c)]>
       (SequencerSets c))
    (TriggerSelector c)
    (AcquisitionBurstFrameCount c) (TriggerMode c) (TriggerSource_Software c) (MaxNumBuffer c).

Definition TriggerSelector_SetValue (t : TriggerSelectorEnums) (c : Camera) : Camera :=
  mkCamera (SequencerMode_IsWritable c) (SequencerMode c) (SequencerConfigurationMode c) (SequencerSetSelector c) (ExposureTime c)
    (SequencerSetNext c) (SequencerPathSelector c) (SequencerSets c) t
    (AcquisitionBurstFrameCount c) (TriggerMode c) (TriggerSource_Software c) (MaxNumBuffer c).

Definition AcquisitionBurstFrameCount_SetValue (n : Z) (c : Camera) : Camera :=
  mkCamera (SequencerMode_IsWritable c) (SequencerMode c) (SequencerConfigurationMode c) (SequencerSetSelector c) (ExposureTime c)
    (SequencerSetNext c) (SequencerPathSelector c) (SequencerSets c) (TriggerSelector c)
    n (TriggerMode c) (TriggerSource_Software c) (MaxNumBuffer c).

Definition TriggerMode_SetValue (b : bool) (c : Camera) : Camera :=
  mkCamera (SequencerMode_IsWritable c) (SequencerMode c) (SequencerConfigurationMode c) (SequencerSetSelector c) (ExposureTime c)
    (SequencerSetNext c) (SequencerPathSelector c) (SequencerSets c) (TriggerSelector c)
    (AcquisitionBurstFrameCount c) b (TriggerSource_Software c) (MaxNumBuffer c).

Definition TriggerSource_SetValue (software : bool) (c : Camera) : Camera :=
  mkCamera (SequencerMode_IsWritable c) (SequencerMode c) (SequencerConfigurationMode c) (SequencerSetSelector c) (ExposureTime c)
    (SequencerSetNext c) (SequencerPathSelector c) (SequencerSets c) (TriggerSelector c)
    (AcquisitionBurstFrameCount c) (TriggerMode c) software (MaxNumBuffer c).

Definition MaxNumBuffer_set (n : Z) (c : Camera) : Camera :=
  mkCamera (SequencerMode_IsWritable c) (SequencerMode c) (SequencerConfigurationMode c) (SequencerSetSelector c) (ExposureTime c)
    (SequencerSetNext c) (SequencerPathSelector c) (SequencerSets c) (TriggerSelector c)
    (AcquisitionBurstFrameCount c) (TriggerMode c) (TriggerSource_Software c) n.

End Reg.

(** ** Sequencer setup (Advanced, lines 153-205) *)

(** [(c_highExposureTime - c_lowExposureTime) / c_imagesPerHDR], with the
    three constants as parameters: a subtraction and a division of
    [double]s, the [uint32_t] divisor converted to [double]. *)
Definition exposureTimeIncrement (N : Z) (low high : double) : double :=
  Double.div (Double.sub high low) (Double.of_Z N).

(** Body of [for (int i = 0; i < c_imagesPerHDR; i++)], lines 172-196. *)
Definition configure_set (N : Z) (low high : double) (c : Camera) (i : Z) : Camera :=
  let c := Reg.SequencerSetSelector_SetValue i c in
  let c :=
    if i =? 0 then Reg.ExposureTime_SetValue low c
    else if i =? wrap32 (N - 1) then Reg.ExposureTime_SetValue high c
    else Reg.ExposureTime_SetValue
           (Double.add (ExposureTime c) (exposureTimeIncrement N low high)) c in
  let c :=
    if i =? wrap32 (N - 1) then Reg.SequencerSetNext_SetValue 0 c
    else Reg.SequencerSetNext_SetValue (i + 1) c in
  let c := Reg.SequencerPathSelector_SetValue 1 c in
  Reg.SequencerSetSave_Execute c.

(** The counted loop: [i] runs through 0, 1, ..., N-1.  The counter is an
    [int]: this is the loop for N <= [INT_MAX]; with a larger N the
    increment of [i] overflows, which C++ leaves undefined, and nothing
    is stated about the sets then. *)
Definition configure_sets (N : Z) (low high : double) (c : Camera) : Camera :=
  foldl (configure_set N low high) c (seqZ 0 N).

(** Lines 165-205: the sequencer is switched off, put in configuration
    mode, programmed, pointed at set 0 and switched on. *)
Definition sequencer_setup (N : Z) (low high : double) (c : Camera) : Camera :=
  let c := Reg.SequencerMode_FromString false c in
  let c := Reg.SequencerConfigurationMode_FromString true c in
  let c := configure_sets N low high c in
  let c := Reg.SequencerSetSelector_SetValue 0 c in
  let c := Reg.SequencerConfigurationMode_FromString false c in
  Reg.SequencerMode_FromString true c.

(** A camera whose sequencer holds no set yet. *)
Definition blank_camera : Camera :=
  mkCamera true false false 0 (Double.of_Z 0) 0 0 ∅ TriggerSelector_FrameStart 1 false false 10.

(** ** Images, exceptions and the external libraries *)

Inductive EPixelType :=
| PixelType_Undefined
| PixelType_Mono8
| PixelType_BayerRG8
| PixelType_RGB8packed
| PixelType_BGR8packed.

Record CPylonImage := mkPylonImage {
  GetPixelType : EPixelType;
  GetWidth : Z;
  GetHeight : Z;
  GetBuffer : list Byte.byte
}.

Inductive MatType := CV_8UC3 | CV_32FC3.

(** A [cv::Mat]: geometry, element type and the pixel data. *)
Record Mat := mkMat {
  rows : Z;
  cols : Z;
  type : MatType;
  data : list Byte.byte
}.

(** The two exception families that can leave a library call.  [main]
    catches [GenICam::GenericException] only. *)
Inductive Exception :=
| GenericException (description : string)
| cv_Exception (description : string).

Inductive Result (A : Type) :=
| Ok (a : A)
| Throw (e : Exception).
Arguments Ok {A} a.
Arguments Throw {A} e.

#[global] Instance Result_ret : MRet Result := fun A a => Ok a.
#[global] Instance Result_bind : MBind Result := fun A B k r =>
  match r with
  | Ok a => k a
  | Throw e => Throw e
  end.

(** The library objects the programs use but do not implement: pylon's
    [CImageFormatConverter] and OpenCV's [MergeMertens] and [Mat::convertTo].
    An object is its state; a method takes the state and returns the new
    state with its result, so that an object kept across calls may
    remember earlier calls. *)
Class Libraries := {
  CImageFormatConverter : Type;
  new_CImageFormatConverter : CImageFormatConverter;
  OutputPixelFormat_SetValue : EPixelType -> CImageFormatConverter -> CImageFormatConverter;
  Convert : CImageFormatConverter -> CPylonImage -> CImageFormatConverter * Result CPylonImage;
  MergeMertens : Type;
  createMergeMertens : MergeMertens;
  process : MergeMertens -> list Mat -> MergeMertens * Result Mat;
  convertTo : Mat -> MatType -> Z -> Mat
}.

Section Fusion.
Context `{Libraries}.

(** Step 1 (Advanced 95-102, Simple 199-206): every stored image is
    converted and wrapped in a [cv::Mat] of type [CV_8UC3]. *)
Fixpoint convert_images (myConverter : CImageFormatConverter) (images : list CPylonImage)
    (cv_images : list Mat) : CImageFormatConverter * Result (list Mat) :=
  match images with
  | [] => (myConverter, Ok cv_images)
  | image :: rest =>
      match Convert myConverter image with
      | (myConverter', Ok convertedImage) =>
          let cv_image :=
            mkMat (GetHeight convertedImage) (GetWidth convertedImage) CV_8UC3
              (GetBuffer convertedImage) in
          convert_images myConverter' rest (cv_images ++ [cv_image])
      | (myConverter', Throw e) => (myConverter', Throw e)
      end
  end.

(** Step 4: [hdrImage.AttachUserBuffer(hdrMat.data, ..., openCVPixelType,
    hdrMat.cols, hdrMat.rows, 0)]. *)
Definition AttachUserBuffer (hdrMat : Mat) (pixelType : EPixelType) : CPylonImage :=
  mkPylonImage pixelType (cols hdrMat) (rows hdrMat) (data hdrMat).

(** Steps 1 to 4, the same text in both programs; alignment (step 2) is
    commented out in both.  The objects are handed in and handed back. *)
Definition fusion_steps (myConverter : CImageFormatConverter) (mergeMertens : MergeMertens)
    (images : list CPylonImage)
    : CImageFormatConverter * MergeMertens * Result CPylonImage :=
  match convert_images myConverter images [] with
  | (myConverter', Throw e) => (myConverter', mergeMertens, Throw e)
  | (myConverter', Ok cv_images) =>
      match process mergeMertens cv_images with
      | (mergeMertens', Throw e) => (myConverter', mergeMertens', Throw e)
      | (mergeMertens', Ok fusion) =>
          let hdrMat := convertTo fusion CV_8UC3 255 in
          (myConverter', mergeMertens', Ok (AttachUserBuffer hdrMat PixelType_BGR8packed))
      end
  end.

(** [void CreateHDR(images, OutputImage)] of the Advanced program: the
    converter and the merger are created inside the call.  The result is
    the new content of [OutputImage]. *)
Definition CreateHDR (images : list CPylonImage) (OutputImage : CPylonImage)
    : Result CPylonImage :=
  let myConverter := OutputPixelFormat_SetValue PixelType_BGR8packed new_CImageFormatConverter in
  let mergeMertens := createMergeMertens in
  hdrImage ← snd (fusion_steps myConverter mergeMertens images);
  mret hdrImage.

End Fusion.

(** ** The grab engine and the trace of a run *)

(** What a grab result holds: an image, or an error code and description. *)
Inductive GrabResult :=
| GrabSucceeded (image : CPylonImage)
| GrabFailed (errorCode : Z) (errorDescription : string).

(** One call of [RetrieveResult(5000, ptrGrabResult, TimeoutHandling_ThrowException)]:
    a grab result, or no result within the timeout. *)
Inductive Retrieval :=
| Retrieved (r : GrabResult)
| TimedOut (description : string).

(** What a run does to the outside world.  The progress image of
    [StitchImage.h], which is not part of the sources, is the list of the
    frames put side by side; console lines that only comment on the
    progress are left out. *)
Inductive Event :=
| EvNotSupported
| EvStartGrabbing (maxImages : Z)
| EvTriggerSoftware
| EvExposureTime (value : double)
| EvRetrieveResult (o : Retrieval)
| EvImageRetrieved (imageCounter : Z)
| EvGrabError (errorCode : Z) (errorDescription : string)
| EvDisplayStitched (frames : list CPylonImage)
| EvFuse (images : list CPylonImage)
| EvDisplayImage (window : Z) (image : CPylonImage)
| EvExceptionOccurred (description : string)
| EvPressEnter.

(** How the process ends: [main] returns its exit code, or an exception
    that [main] does not catch ends it through [std::terminate]. *)
Inductive ExitStatus :=
| Returned (exitCode : Z)
| Terminated (e : Exception).

Definition empty_image : CPylonImage := mkPylonImage PixelType_Undefined 0 0 [].

(** [while (camera.IsGrabbing()) { camera.RetrieveResult(...); body }],
    the same in both programs.  The list holds the outcomes of the
    retrievals made while the camera is grabbing; the grab engine stops
    grabbing by itself once the frame budget is used, which ends the list.
    A timeout throws and leaves the loop; so does a throwing body. *)
Section GrabLoop.
Context {State : Type} (loop_body : State -> GrabResult -> list Event * Result State).

Fixpoint grab_loop (st : State) (outcomes : list Retrieval) : list Event * Result State :=
  match outcomes with
  | [] => ([], Ok st)
  | TimedOut description :: _ =>
      ([EvRetrieveResult (TimedOut description)], Throw (GenericException description))
  | Retrieved r :: rest =>
      match loop_body st r with
      | (ev, Ok st') =>
          let '(ev', res) := grab_loop st' rest in
          (EvRetrieveResult (Retrieved r) :: ev ++ ev', res)
      | (ev, Throw e) => (EvRetrieveResult (Retrieved r) :: ev, Throw e)
      end
  end.

(** The [try] block from [StartGrabbing] on, the [catch] clause and the
    lines after it. *)
Definition grab_and_exit (st : State) (outcomes : list Retrieval) : list Event * ExitStatus :=
  let '(ev, res) := grab_loop st outcomes in
  let trace := [EvStartGrabbing c_countOfImagesToGrab; EvTriggerSoftware] ++ ev in
  match res with
  | Ok _ => (trace ++ [EvPressEnter], Returned 0)
  | Throw (GenericException description) =>
      (trace ++ [EvExceptionOccurred description; EvPressEnter], Returned 1)
  | Throw (cv_Exception description) => (trace, Terminated (cv_Exception description))
  end.

End GrabLoop.

(** ** The Advanced program: sequencer and one trigger per burst *)

Module Advanced.

Record State := mkState {
  imageCounter : Z;
  images : list CPylonImage;
  stitchedImage : list CPylonImage
}.

Section Program.
Context `{Libraries}.
Variables (N : Z) (low high : double).

(** Lines 209-228: trigger configuration and buffer count. *)
Definition setup (camera : Camera) : Camera :=
  let camera := sequencer_setup N low high camera in
  let camera := Reg.TriggerSelector_SetValue TriggerSelector_FrameBurstStart camera in
  let camera := Reg.AcquisitionBurstFrameCount_SetValue N camera in
  let camera := Reg.TriggerMode_SetValue true camera in
  let camera := Reg.TriggerSource_SetValue true camera in
  Reg.MaxNumBuffer_set 10 camera.

(** Lines 247-288: what one turn of the grab loop does with the result
    it retrieved. *)
Definition loop_body (st : State) (r : GrabResult) : list Event * Result State :=
  let '(st, ev) :=
    match r with
    | GrabSucceeded image =>
        let imageCounter := imageCounter st + 1 in
        let images := images st ++ [image] in
        let stitched := stitchedImage st ++ [image] in
        (mkState imageCounter images (if wrap32 imageCounter =? N then [] else stitched),
         [EvImageRetrieved imageCounter; EvDisplayStitched stitched])
    | GrabFailed errorCode errorDescription =>
        (st, [EvGrabError errorCode errorDescription])
    end in
  if Z.of_nat (length (images st)) =? N then
    match CreateHDR (images st) empty_image with
    | Ok hdrImage =>
        (ev ++ [EvTriggerSoftware; EvFuse (images st); EvDisplayImage 0 hdrImage],
         Ok (mkState 0 [] (stitchedImage st)))
    | Throw e => (ev ++ [EvTriggerSoftware; EvFuse (images st)], Throw e)
    end
  else (ev, Ok st).

Definition initial : State := mkState 0 [] [].

(** Lines 236-303: the acquisition, from [StartGrabbing] to the exit code. *)
Definition run (outcomes : list Retrieval) : list Event * ExitStatus :=
  grab_and_exit loop_body initial outcomes.

(** [main]: the capability check returns 1 from inside the [try] block. *)
Definition main (camera : Camera) (outcomes : list Retrieval) : list Event * ExitStatus :=
  if negb (SequencerMode_IsWritable camera) then ([EvNotSupported], Returned 1)
  else
    let camera := setup camera in
    run outcomes.

End Program.
End Advanced.

(** ** The Simple program: one trigger per frame *)

Module Simple.

Record State `{Libraries} := mkState {
  camera : Camera;
  imageCounter : Z;
  images : list CPylonImage;
  stitchedImage : list CPylonImage;
  myConverter : CImageFormatConverter;
  mergeMertens : MergeMertens
}.

Section Program.
Context `{Libraries}.
Variables (N : Z) (low high : double).

(** Lines 107-139. *)
Definition setup (camera : Camera) : Camera :=
  let camera := Reg.TriggerMode_SetValue true camera in
  let camera := Reg.TriggerSource_SetValue true camera in
  let camera := Reg.ExposureTime_SetValue low camera in
  Reg.MaxNumBuffer_set 10 camera.

(** Lines 165-176: the two [if]s that set the next exposure time and
    trigger the camera again. *)
Definition trigger_next (imageCounter : Z) (camera : Camera) : Camera * list Event :=
  let '(camera, ev1) :=
    if negb (wrap32 imageCounter =? N) then
      let e := Double.add (ExposureTime camera) (exposureTimeIncrement N low high) in
      (Reg.ExposureTime_SetValue e camera, [EvExposureTime e; EvTriggerSoftware])
    else (camera, []) in
  let '(camera, ev2) :=
    if wrap32 imageCounter =? N then
      (Reg.ExposureTime_SetValue low camera, [EvExposureTime low; EvTriggerSoftware])
    else (camera, []) in
  (camera, ev1 ++ ev2).

(** Lines 158-227. *)
Definition loop_body (st : State) (r : GrabResult) : list Event * Result State :=
  let '(st, ev) :=
    match r with
    | GrabSucceeded image =>
        let imageCounter := imageCounter st + 1 in
        let '(camera, evT) := trigger_next imageCounter (camera st) in
        let images := images st ++ [image] in
        let stitched := stitchedImage st ++ [image] in
        (mkState _ camera imageCounter images (if wrap32 imageCounter =? N then [] else stitched)
           (myConverter st) (mergeMertens st),
         evT ++ [EvDisplayStitched stitched])
    | GrabFailed errorCode errorDescription =>
        (st, [EvGrabError errorCode errorDescription])
    end in
  if Z.of_nat (length (images st)) =? N then
    match fusion_steps (myConverter st) (mergeMertens st) (images st) with
    | (myConverter', mergeMertens', Ok hdrImage) =>
        (ev ++ [EvFuse (images st); EvDisplayImage 0 hdrImage],
         Ok (mkState _ (camera st) 0 [] (stitchedImage st) myConverter' mergeMertens'))
    | (_, _, Throw e) => (ev ++ [EvFuse (images st)], Throw e)
    end
  else (ev, Ok st).

Definition initial (camera : Camera) : State :=
  mkState _ (setup camera) 0 [] []
    (OutputPixelFormat_SetValue PixelType_BGR8packed new_CImageFormatConverter)
    createMergeMertens.

Definition main (camera : Camera) (outcomes : list Retrieval) : list Event * ExitStatus :=
  grab_and_exit loop_body (initial camera) outcomes.

End Program.
End Simple.

(** ** Reading a trace *)

(** The brackets handed to the fusion, in the order of the hand-over. *)
Fixpoint fused (trace : list Event) : list (list CPylonImage) :=
  match trace with
  | [] => []
  | EvFuse images :: t => images :: fused t
  | _ :: t => fused t
  end.

(** The number of software triggers. *)
Fixpoint triggers (trace : list Event) : nat :=
  match trace with
  | [] => O
  | EvTriggerSoftware :: t => S (triggers t)
  | _ :: t => triggers t
  end.

Definition is_RetrieveResult (e : Event) : bool :=
  match e with EvRetrieveResult _ => true | _ => false end.

(** A trigger, or a write to the exposure time: what exposes a new frame. *)
Definition exposes (e : Event) : bool :=
  match e with EvTriggerSoftware | EvExposureTime _ => true | _ => false end.

(** The events of the current turn of the loop: up to the next retrieval. *)
Fixpoint until_next_retrieval (trace : list Event) : list Event :=
  match trace with
  | [] => []
  | e :: t => if is_RetrieveResult e then [] else e :: until_next_retrieval t
  end.

(** The images of the successful grab results, in arrival order. *)
Fixpoint succeeded (rs : list GrabResult) : list CPylonImage :=
  match rs with
  | [] => []
  | GrabSucceeded image :: t => image :: succeeded t
  | GrabFailed _ _ :: t => succeeded t
  end.

Definition is_GrabFailed (r : GrabResult) : bool :=
  match r with GrabFailed _ _ => true | GrabSucceeded _ => false end.

(** ** The camera behind the grab engine

    Both programs switch the trigger mode on with the software trigger as
    its source: the camera exposes a frame only when triggered, one frame
    per trigger in the Simple program and a burst of
    [AcquisitionBurstFrameCount] frames in the Advanced one.  A grab result,
    good or bad, uses up one of the frames the camera owes; when it owes
    none, a retrieval can only time out.  [owed] counts the frames
    triggered and not yet retrieved. *)
Fixpoint device_consistent (framesPerTrigger owed : Z) (trace : list Event) : bool :=
  match trace with
  | [] => true
  | EvTriggerSoftware :: t => device_consistent framesPerTrigger (owed + framesPerTrigger) t
  | EvRetrieveResult (Retrieved _) :: t =>
      (0 <? owed) && device_consistent framesPerTrigger (owed - 1) t
  | _ :: t => device_consistent framesPerTrigger owed t
  end.

(** ** Stand-ins for the libraries

    Executable stand-ins, to run the programs on concrete inputs.  The
    converter keeps its output format; the merger keeps nothing, refuses
    an empty list and images that differ in geometry or type, and answers
    with a floating-point image of the common geometry. *)
Module StandIn.

Fixpoint swap_red_blue (buffer : list Byte.byte) : list Byte.byte :=
  match buffer with
  | r :: g :: b :: rest => b :: g :: r :: swap_red_blue rest
  | _ => buffer
  end.

Definition to_BGR8 (image : CPylonImage) : Result CPylonImage :=
  match GetPixelType image with
  | PixelType_Mono8 =>
      Ok (mkPylonImage PixelType_BGR8packed (GetWidth image) (GetHeight image)
            (flat_map (fun b => [b; b; b]) (GetBuffer image)))
  | PixelType_BGR8packed => Ok image
  | PixelType_RGB8packed =>
      Ok (mkPylonImage PixelType_BGR8packed (GetWidth image) (GetHeight image)
            (swap_red_blue (GetBuffer image)))
  | _ => Throw (GenericException "unsupported pixel type")
  end.

Definition standin_Convert (outputFormat : EPixelType) (image : CPylonImage)
    : EPixelType * Result CPylonImage :=
  match outputFormat with
  | PixelType_BGR8packed => (outputFormat, to_BGR8 image)
  | _ => (outputFormat, Throw (GenericException "unsupported output format"))
  end.

Definition same_geometry (a b : Mat) : bool :=
  (rows a =? rows b) && (cols a =? cols b) &&
  match type a, type b with
  | CV_8UC3, CV_8UC3 | CV_32FC3, CV_32FC3 => true
  | _, _ => false
  end.

Definition standin_process (mm : unit) (images : list Mat) : unit * Result Mat :=
  match images with
  | [] => (mm, Throw (cv_Exception "empty image list"))
  | first :: rest =>
      if forallb (same_geometry first) rest
      then (mm, Ok (mkMat (rows first) (cols first) CV_32FC3 (data first)))
      else (mm, Throw (cv_Exception "image dimensions differ"))
  end.

Definition standin_convertTo (m : Mat) (t : MatType) (alpha : Z) : Mat :=
  mkMat (rows m) (cols m) t (data m).

#[export] Instance libraries : Libraries := {|
  CImageFormatConverter := EPixelType;
  new_CImageFormatConverter := PixelType_Undefined;
  OutputPixelFormat_SetValue := fun t _ => t;
  Convert := standin_Convert;
  MergeMertens := unit;
  createMergeMertens := tt;
  process := standin_process;
  convertTo := standin_convertTo
|}.

(** Three frames of 2 x 1 pixels, and a wider one. *)
Definition dark : CPylonImage := mkPylonImage PixelType_Mono8 2 1 [Byte.x0a; Byte.x14].
Definition mid : CPylonImage := mkPylonImage PixelType_Mono8 2 1 [Byte.x64; Byte.x78].
Definition bright : CPylonImage :=
  mkPylonImage PixelType_BGR8packed 2 1
    [Byte.xc8; Byte.xc8; Byte.xc8; Byte.xfa; Byte.xfa; Byte.xfa].
Definition wide : CPylonImage :=
  mkPylonImage PixelType_Mono8 3 1 [Byte.x01; Byte.x02; Byte.x03].

End StandIn.

(** A merger that remembers how often it was called and answers
    accordingly: what an object kept across brackets could do. *)
Module Remembering.

Definition remembering_process (calls : nat) (images : list Mat) : nat * Result Mat :=
  (S calls, Ok (mkMat 1 1 CV_32FC3 (repeat Byte.xff (3 * calls)))).

#[export] Instance libraries : Libraries := {|
  CImageFormatConverter := EPixelType;
  new_CImageFormatConverter := PixelType_Undefined;
  OutputPixelFormat_SetValue := fun t _ => t;
  Convert := StandIn.standin_Convert;
  MergeMertens := nat;
  createMergeMertens := O;
  process := remembering_process;
  convertTo := StandIn.standin_convertTo
|}.

End Remembering.

(** ** The vocabulary of the properties *)

(** The exposure ramp the loop accumulates in the [ExposureTime] register. *)
Fixpoint ramp (low inc : double) (i : nat) : double :=
  match i with
  | O => low
  | S j => Double.add (ramp low inc j) inc
  end.

(** The set the loop stores at index [i]. *)
Definition programmed (N : Z) (low high : double) (i : Z) : SequencerSet :=
  mkSequencerSet
    (if i =? N - 1 then (if i =? 0 then low else high)
     else ramp low (exposureTimeIncrement N low high) (Z.to_nat i))
    (if i =? N - 1 then 0 else i + 1)
    1.

Definition step_exposure (c : Camera) (i : Z) : option double :=
  set_ExposureTime <$> SequencerSets c !! i.

Definition step_successor (c : Camera) (i : Z) : option Z :=
  set_SequencerSetNext <$> SequencerSets c !! i.

(** What a turn of the loop does to the active bracket: a good frame is
    appended; a bracket of [N] frames is handed to the fusion and the next
    turn starts with an empty one; a turn throws only out of the fusion. *)
Definition assembles {State : Type}
    (loop_body : State -> GrabResult -> list Event * Result State)
    (bracket : State -> list CPylonImage) (N : Z) : Prop :=
  forall st r,
    let b := bracket st ++ succeeded [r] in
    fused (fst (loop_body st r)) = (if Z.of_nat (length b) =? N then [b] else []) /\
    (forall st', snd (loop_body st r) = Ok st' ->
       bracket st' = if Z.of_nat (length b) =? N then [] else b) /\
    (Z.of_nat (length b) <> N -> exists st', snd (loop_body st r) = Ok st').

(** Every hand-over to the fusion comes right after the trigger, in the
    turn that retrieved the last frame of the bracket. *)
Definition fuse_follows_trigger (N : Z) (trace : list Event) : Prop :=
  forall pre b post, trace = pre ++ EvFuse b :: post ->
    Z.of_nat (length b) = N /\
    exists pre' b' image k s,
      b = b' ++ [image] /\
      pre = pre' ++ [EvRetrieveResult (Retrieved (GrabSucceeded image));
                     EvImageRetrieved k; EvDisplayStitched s; EvTriggerSoftware].

(** Point [k] of the straight line from [l] to [h] cut in [N] parts. *)
Definition ramp_point (N : Z) (l h : Q) (k : nat) : Q :=
  (l + inject_Z (Z.of_nat k) * ((h - l) / inject_Z N))%Q.

(** The [k]-th exposure time accumulated from [low] carries no rounding
    error: it is point [k] of the line from [low] to [high]. *)
Definition unrounded (N : Z) (low high : double) (k : nat) : Prop :=
  match Double.value low, Double.value high,
        Double.value (ramp low (exposureTimeIncrement N low high) k) with
  | Some l, Some h, Some q => (q == ramp_point N l h k)%Q
  | _, _, _ => False
  end.

(** A mantissa of 53 bits at an exponent in the range of the normal
    [double]s. *)
Definition canonical53 (m : positive) (e : Z) : Prop :=
  Zpos (digits2_pos m) = 53 /\ -1074 <= e <= 971.

(** Exponent and mantissa of the [double] that holds the whole number
    [z], 0 < z < 2^53. *)
Definition whole_exponent (z : Z) : Z := Z.log2 z + 1 - 53.
Definition whole_mantissa (z : Z) : positive := Z.to_pos (z * 2 ^ (- whole_exponent z)).





(** ** Concrete inputs *)

Module Runs.
Import StandIn.

Definition low := c_lowExposureTime.
Definition high := c_highExposureTime.

Definition failed : GrabResult := GrabFailed 3774873620 "incomplete buffer".

(** Three good frames: one bracket. *)
Definition one_bracket : list Retrieval :=
  [Retrieved (GrabSucceeded dark); Retrieved (GrabSucceeded mid);
   Retrieved (GrabSucceeded bright)].

(** One good frame, then four failed grab results in a row. *)
Definition good_then_failures : list Retrieval :=
  [Retrieved (GrabSucceeded dark); Retrieved failed; Retrieved failed; Retrieved failed;
   Retrieved failed].

(** The events of the Advanced loop over [one_bracket]. *)
Definition one_bracket_events : list Event :=
  Eval vm_compute in fst (grab_loop (Advanced.loop_body c_imagesPerHDR) Advanced.initial one_bracket).

(** The events and the state of the Simple loop after one good frame. *)
Definition simple_first_events : list Event :=
  Eval vm_compute in
    fst (grab_loop (Simple.loop_body c_imagesPerHDR low high) (Simple.initial low blank_camera)
           [Retrieved (GrabSucceeded dark)]).

Definition simple_first_state : Simple.State :=
  Eval vm_compute in
    match snd (grab_loop (Simple.loop_body c_imagesPerHDR low high)
                 (Simple.initial low blank_camera) [Retrieved (GrabSucceeded dark)]) with
    | Ok st => st
    | Throw _ => Simple.initial low blank_camera
    end.

Definition odd_low : double := Double.of_Z (2 ^ 53 + 2).
Definition odd_high : double := Double.of_Z (2 ^ 53 + 4).


End Runs.

(** ** The vocabulary of the further properties *)

(** The outcomes of the retrievals recorded in a trace, in order. *)
Fixpoint retrievals (trace : list Event) : list Retrieval :=
  match trace with
  | [] => []
  | EvRetrieveResult o :: t => o :: retrievals t
  | _ :: t => retrievals t
  end.

(** The number of good grab results retrieved. *)
Fixpoint good_retrievals (trace : list Event) : nat :=
  match trace with
  | [] => O
  | EvRetrieveResult (Retrieved (GrabSucceeded _)) :: t => S (good_retrievals t)
  | _ :: t => good_retrievals t
  end.

(** The grab results of a stream, up to its first time-out. *)
Fixpoint results (outcomes : list Retrieval) : list GrabResult :=
  match outcomes with
  | Retrieved r :: rest => r :: results rest
  | _ => []
  end.

(** The set reached from set [i] after [k] frames, each frame moving the
    sequencer to [SequencerSetNext] of the set it was taken with. *)
Fixpoint follow (c : Camera) (k : nat) (i : Z) : option Z :=
  match k with
  | O => Some i
  | S k' =>
      match step_successor c i with
      | Some j => follow c k' j
      | None => None
      end
  end.

(** The largest number of frames the camera owes at any point of a
    trace, counted as in [device_consistent]. *)
Fixpoint peak_owed (framesPerTrigger owed : Z) (trace : list Event) : Z :=
  match trace with
  | [] => owed
  | EvTriggerSoftware :: t =>
      Z.max owed (peak_owed framesPerTrigger (owed + framesPerTrigger) t)
  | EvRetrieveResult (Retrieved _) :: t =>
      Z.max owed (peak_owed framesPerTrigger (owed - 1) t)
  | _ :: t => peak_owed framesPerTrigger owed t
  end.

(** What a run shows of its fusion: the brackets handed over and the
    fused images displayed. *)
Definition is_hdr_output (e : Event) : bool :=
  match e with
  | EvFuse _ | EvDisplayImage _ _ => true
  | _ => false
  end.

Fixpoint hdr_view (trace : list Event) : list Event :=
  match trace with
  | [] => []
  | e :: t => if is_hdr_output e then e :: hdr_view t else hdr_view t
  end.

(** Every good grab result is answered at once: the next two events are
    the write of the next exposure time and the trigger. *)
Definition trigger_follows_good_frame (trace : list Event) : Prop :=
  forall pre image post,
    trace = pre ++ EvRetrieveResult (Retrieved (GrabSucceeded image)) :: post ->
    exists e post', post = EvExposureTime e :: EvTriggerSoftware :: post'.


(** The state the Simple loop is in between two turns: the exposure time
    in the camera is that of the frame the loop is waiting for. *)
Definition Simple_between_turns `{Libraries} (N : Z) (low high : double) (st : Simple.State)
    : Prop :=
  Simple.imageCounter st = Z.of_nat (length (Simple.images st)) /\
  Simple.stitchedImage st = Simple.images st /\
  Z.of_nat (length (Simple.images st)) < N /\
  ExposureTime (Simple.camera st) =
    ramp low (exposureTimeIncrement N low high) (length (Simple.images st)).

(** Library objects whose calls leave their state as it was. *)
Definition stateless `{Libraries} : Prop :=
  (forall conv image, fst (Convert conv image) = conv) /\
  (forall mm images, fst (process mm images) = mm).

(** An exposure time the Simple loop may write: [low] plus [k]
    increments, with [k] short of [N]. *)
Definition on_ramp (N : Z) (low high : double) (e : Event) : Prop :=
  match e with
  | EvExposureTime q =>
      exists k : nat, Z.of_nat k < N /\ q = ramp low (exposureTimeIncrement N low high) k
  | _ => True
  end.

(** A fused image on display: window 0, pixel type BGR8packed. *)
Definition shows_BGR8 (e : Event) : Prop :=
  match e with
  | EvDisplayImage window image =>
      window = 0 /\ GetPixelType image = PixelType_BGR8packed
  | _ => True
  end.

(** The states of the two loops that hold the same images, the Simple
    one with its converter and merger as they were created. *)
Definition alike `{Libraries} (stS : Simple.State) (stA : Advanced.State) : Prop :=
  Simple.images stS = Advanced.images stA /\
  Simple.myConverter stS =
    OutputPixelFormat_SetValue PixelType_BGR8packed new_CImageFormatConverter /\
  Simple.mergeMertens stS = createMergeMertens.

(** Two turns, or two loops, that end alike. *)
Definition end_alike `{Libraries} (rS : Result Simple.State) (rA : Result Advanced.State)
    : Prop :=
  match rS, rA with
  | Ok stS, Ok stA => alike stS stA
  | Throw eS, Throw eA => eS = eA
  | _, _ => False
  end.

(** ** More concrete inputs *)

Module MoreRuns.
Import StandIn Runs.

(** Four good frames and a failed grab result: one bracket and a frame
    to spare. *)
Definition five_results : list GrabResult :=
  [GrabSucceeded dark; failed; GrabSucceeded mid; GrabSucceeded bright; GrabSucceeded dark].

Definition advanced_five_events : list Event :=
  Eval vm_compute in
    fst (grab_loop (Advanced.loop_body c_imagesPerHDR) Advanced.initial
           (map Retrieved five_results)).

Definition advanced_five_state : Advanced.State :=
  Eval vm_compute in
    match snd (grab_loop (Advanced.loop_body c_imagesPerHDR) Advanced.initial
                 (map Retrieved five_results)) with
    | Ok st => st
    | Throw _ => Advanced.initial
    end.

Definition simple_five_events : list Event :=
  Eval vm_compute in
    fst (grab_loop (Simple.loop_body c_imagesPerHDR low high) (Simple.initial low blank_camera)
           (map Retrieved five_results)).

Definition simple_five_state : Simple.State :=
  Eval vm_compute in
    match snd (grab_loop (Simple.loop_body c_imagesPerHDR low high)
                 (Simple.initial low blank_camera) (map Retrieved five_results)) with
    | Ok st => st
    | Throw _ => Simple.initial low blank_camera
    end.

(** The events of the Advanced loop over one good frame. *)
Definition advanced_first_events : list Event :=
  Eval vm_compute in
    fst (grab_loop (Advanced.loop_body c_imagesPerHDR) Advanced.initial
           [Retrieved (GrabSucceeded dark)]).

(** A burst of three frames whose second frame fails, and the time-out
    that follows the burst. *)
Definition broken_burst : list Retrieval :=
  [Retrieved (GrabSucceeded dark)] ++
  Retrieved (GrabFailed 3774873620 "incomplete buffer") ::
  [Retrieved (GrabSucceeded mid); TimedOut "Grab timed out."].

(** Two frames of different widths, with N = 2. *)
Definition mismatched : list Retrieval :=
  [Retrieved (GrabSucceeded dark); Retrieved (GrabSucceeded wide)].

End MoreRuns.

(** * Properties *)

(** ** The sequence program *)

Lemma wrap32_small z : 0 <= z < 2 ^ 32 -> wrap32 z = z.
Proof. intros Hz. unfold wrap32. apply Z.mod_small. exact Hz. Qed.

Lemma seqZ_snoc (k : nat) : seqZ 0 (Z.of_nat (S k)) = seqZ 0 (Z.of_nat k) ++ [Z.of_nat k].
Proof.
  unfold seqZ. rewrite !Nat2Z.id, seq_S, fmap_app. simpl.
  by rewrite Z.add_0_r.
Qed.

Lemma configure_set_sets N low high c i :
  SequencerSets (configure_set N low high c i) =
  <[i := mkSequencerSet (ExposureTime (configure_set N low high c i))
           (if i =? wrap32 (N - 1) then 0 else i + 1) 1]> (SequencerSets c).
Proof.
  unfold configure_set.
  destruct (i =? 0); destruct (i =? wrap32 (N - 1)); reflexivity.
Qed.

Lemma configure_set_exposure N low high c i :
  ExposureTime (configure_set N low high c i) =
  if i =? 0 then low
  else if i =? wrap32 (N - 1) then high
  else Double.add (ExposureTime c) (exposureTimeIncrement N low high).
Proof.
  unfold configure_set.
  destruct (i =? 0); destruct (i =? wrap32 (N - 1)); reflexivity.
Qed.

(** The state of the camera after the first [k] turns of the loop. *)
Lemma configure_sets_prefix N low high c (k : nat) :
  1 <= N <= INT_MAX -> Z.of_nat k <= N ->
  let c' := foldl (configure_set N low high) c (seqZ 0 (Z.of_nat k)) in
  (forall i, 0 <= i < Z.of_nat k -> SequencerSets c' !! i = Some (programmed N low high i)) /\
  (forall i, ~ (0 <= i < Z.of_nat k) -> SequencerSets c' !! i = SequencerSets c !! i) /\
  (0 < Z.of_nat k ->
   ExposureTime c' = set_ExposureTime (programmed N low high (Z.of_nat k - 1))).
Proof.
  intros HN. unfold INT_MAX in HN. induction k as [|k IH]; intros Hk c'.
  - subst c'. simpl. repeat split; intros; try lia; reflexivity.
  - subst c'. rewrite seqZ_snoc, foldl_app. cbn [foldl].
    destruct IH as (IH1 & IH2 & IH3); [lia|].
    set (ck := foldl (configure_set N low high) c (seqZ 0 (Z.of_nat k))) in *.
    assert (Hw : wrap32 (N - 1) = N - 1) by (apply wrap32_small; lia).
    assert (He : ExposureTime (configure_set N low high ck (Z.of_nat k)) =
                 set_ExposureTime (programmed N low high (Z.of_nat k))).
    { rewrite configure_set_exposure, Hw. unfold programmed. simpl.
      destruct (Z.eqb_spec (Z.of_nat k) 0) as [E0|E0].
      - destruct (Z.eqb_spec (Z.of_nat k) (N - 1)); [reflexivity|].
        replace k with O by lia. reflexivity.
      - destruct (Z.eqb_spec (Z.of_nat k) (N - 1)); [reflexivity|].
        rewrite IH3 by lia. unfold programmed. simpl.
        destruct (Z.eqb_spec (Z.of_nat k - 1) (N - 1)); [lia|].
        replace (Z.to_nat (Z.of_nat k)) with (S (Z.to_nat (Z.of_nat k - 1))) by lia.
        reflexivity. }
    repeat split.
    + intros i Hi. rewrite configure_set_sets, Hw.
      destruct (decide (i = Z.of_nat k)) as [->|Hne].
      * rewrite lookup_insert_eq, He. reflexivity.
      * rewrite lookup_insert_ne by congruence. apply IH1. lia.
    + intros i Hi. rewrite configure_set_sets.
      rewrite lookup_insert_ne by lia. apply IH2. lia.
    + intros _. rewrite He. f_equal. f_equal. lia.
Qed.

Lemma ramp_point_lt N l h (i j : nat) :
  0 < N -> (l < h)%Q -> (i < j)%nat -> (ramp_point N l h i < ramp_point N l h j)%Q.
Proof.
  intros HN Hlh Hij. unfold ramp_point.
  assert (Hinc : (0 < (h - l) / inject_Z N)%Q).
  { apply Qlt_shift_div_l.
    - change 0%Q with (inject_Z 0). rewrite <- Zlt_Qlt. exact HN.
    - lra. }
  assert (Hk : (inject_Z (Z.of_nat i) * ((h - l) / inject_Z N) <
                inject_Z (Z.of_nat j) * ((h - l) / inject_Z N))%Q).
  { apply Qmult_lt_r; [exact Hinc|]. rewrite <- Zlt_Qlt. lia. }
  lra.
Qed.

Lemma ramp_point_0 N l h : (ramp_point N l h 0 == l)%Q.
Proof. unfold ramp_point. change (inject_Z (Z.of_nat 0)) with 0%Q. ring. Qed.

Lemma ramp_point_N N l h : 0 < N -> (ramp_point N l h (Z.to_nat N) == h)%Q.
Proof.
  intros HN. unfold ramp_point. rewrite Z2Nat.id by lia. field.
  intros E. unfold Qeq in E. simpl in E. lia.
Qed.

Lemma ramp_point_below N l h (i : nat) :
  0 < N -> (l < h)%Q -> Z.of_nat i < N -> (ramp_point N l h i < h)%Q.
Proof.
  intros HN Hlh Hi. rewrite <- (ramp_point_N N l h HN) at 2.
  apply ramp_point_lt; [exact HN | exact Hlh | lia].
Qed.

Lemma ramp_point_ge N l h (i : nat) :
  0 < N -> (l < h)%Q -> (l <= ramp_point N l h i)%Q.
Proof.
  intros HN Hlh. destruct i as [|i].
  - rewrite ramp_point_0. lra.
  - rewrite <- (ramp_point_0 N l h) at 1.
    apply Qlt_le_weak, ramp_point_lt; [exact HN | exact Hlh | lia].
Qed.

Lemma unrounded_value N low high l h (k : nat) :
  Double.value low = Some l -> Double.value high = Some h -> unrounded N low high k ->
  exists q, Double.value (ramp low (exposureTimeIncrement N low high) k) = Some q /\
            (q == ramp_point N l h k)%Q.
Proof.
  intros Hl Hh Hk. unfold unrounded in Hk. rewrite Hl, Hh in Hk.
  destruct (Double.value (ramp low (exposureTimeIncrement N low high) k)) as [q|];
    [|contradiction].
  exists q. split; [reflexivity | exact Hk].
Qed.


Lemma lt_values low high :
  Double.lt low high ->
  exists l h, Double.value low = Some l /\ Double.value high = Some h /\ (l < h)%Q.
Proof.
  unfold Double.lt. intros Hlt.
  destruct (Double.value low) as [l|]; [|contradiction].
  destruct (Double.value high) as [h|]; [|contradiction].
  exists l, h. auto.
Qed.


(** ** Whole numbers in [double]

    The sum, the difference and the exact quotient of whole numbers
    below 2^53 are computed without rounding. *)

Lemma iter_pos_nat {A} (f : A -> A) p :
  forall x, SpecFloat.iter_pos f p x = Nat.iter (Pos.to_nat p) f x.
Proof.
  induction p as [p IH|p IH|]; intros x; cbn [SpecFloat.iter_pos].
  - rewrite !IH, Pos2Nat.inj_xI.
    replace (S (2 * Pos.to_nat p))%nat with (Pos.to_nat p + (Pos.to_nat p + 1))%nat by lia.
    rewrite !Nat.iter_add. reflexivity.
  - rewrite !IH, Pos2Nat.inj_xO.
    replace (2 * Pos.to_nat p)%nat with (Pos.to_nat p + Pos.to_nat p)%nat by lia.
    rewrite Nat.iter_add. reflexivity.
  - reflexivity.
Qed.

Lemma digits2_size m : Zpos (digits2_pos m) = Z.log2 (Zpos m) + 1.
Proof.
  induction m as [m IH|m IH|].
  - cbn [digits2_pos]. rewrite Pos2Z.inj_succ, IH.
    change (Zpos m~1) with (2 * Zpos m + 1). rewrite Z.log2_succ_double by lia. lia.
  - cbn [digits2_pos]. rewrite Pos2Z.inj_succ, IH.
    change (Zpos m~0) with (2 * Zpos m). rewrite Z.log2_double by lia. lia.
  - reflexivity.
Qed.

Lemma digits2_bounds m : 2 ^ (Zpos (digits2_pos m) - 1) <= Zpos m < 2 ^ Zpos (digits2_pos m).
Proof.
  rewrite digits2_size. replace (Z.log2 (Zpos m) + 1 - 1) with (Z.log2 (Zpos m)) by lia.
  replace (Z.log2 (Zpos m) + 1) with (Z.succ (Z.log2 (Zpos m))) by lia.
  apply Z.log2_spec. lia.
Qed.

Lemma digits2_unique m d : 2 ^ (d - 1) <= Zpos m < 2 ^ d -> Zpos (digits2_pos m) = d.
Proof.
  intros Hb. rewrite digits2_size.
  assert (0 < d).
  { destruct (Z.le_gt_cases d 0) as [Hd|Hd]; [|lia].
    assert (2 ^ d <= 2 ^ 0) by (apply Z.pow_le_mono_r; lia). simpl in *. lia. }
  rewrite (Z.log2_unique (Zpos m) (d - 1));
    lia || (replace (Z.succ (d - 1)) with d by lia; lia).
Qed.

Lemma iter_xO m p : Zpos (Pos.iter xO m p) = Zpos m * 2 ^ Zpos p.
Proof.
  rewrite (Pos.iter_swap_gen _ _ Zpos xO (Z.mul 2)) by reflexivity.
  change (Pos.iter (Z.mul 2) (Zpos m) p) with (Z.shiftl (Zpos m) (Zpos p)).
  apply Z.shiftl_mul_pow2. lia.
Qed.

Lemma shr_exact (k : nat) : forall m : positive,
  Nat.iter k shr_1 (Build_shr_record (Zpos m * 2 ^ Z.of_nat k) false false) =
  Build_shr_record (Zpos m) false false.
Proof.
  induction k as [|k IH]; intros m.
  - cbn [Nat.iter]. rewrite Z.mul_1_r. reflexivity.
  - rewrite Nat.iter_succ_r.
    assert (Hpos : 0 < Zpos m * 2 ^ Z.of_nat k) by (apply Z.mul_pos_pos; lia).
    destruct (Zpos m * 2 ^ Z.of_nat k) as [|q|q] eqn:Eq; try lia.
    replace (Zpos m * 2 ^ Z.of_nat (S k)) with (Zpos q~0).
    + cbn [shr_1 orb]. rewrite <- Eq. apply IH.
    + rewrite Nat2Z.inj_succ, Z.pow_succ_r by lia. lia.
Qed.

Lemma fexp_53 e : -1074 <= e -> fexp Double.prec Double.emax (53 + e) = e.
Proof. intros He. unfold fexp, emin, Double.prec, Double.emax. lia. Qed.

Lemma digits2_shift m n : 0 <= n ->
  forall M, Zpos M = Zpos m * 2 ^ n -> Zpos (digits2_pos M) = Zpos (digits2_pos m) + n.
Proof.
  intros Hn M HM. apply digits2_unique. rewrite HM.
  pose proof (digits2_bounds m) as [Hlo Hhi].
  replace (Zpos (digits2_pos m) + n - 1) with ((Zpos (digits2_pos m) - 1) + n) by lia.
  assert (0 <= Zpos (digits2_pos m) - 1) by lia.
  rewrite !Z.pow_add_r by lia.
  assert (0 < 2 ^ n) by (apply Z.pow_pos_nonneg; lia).
  split; [apply Z.mul_le_mono_nonneg_r; lia | apply Z.mul_lt_mono_pos_r; lia].
Qed.

(** Rounding a number that is a [double]: nothing is lost. *)
Lemma binary_round_aux_exact s m e n M :
  canonical53 m e -> 0 <= n -> Zpos M = Zpos m * 2 ^ n ->
  binary_round_aux Double.prec Double.emax s (Zpos M) (e - n) loc_Exact =
  S754_finite s m e.
Proof.
  intros [Hm He] Hn HM.
  pose proof (digits2_shift m n Hn M HM) as HdM.
  unfold binary_round_aux, shr_fexp. cbn [Zdigits2 shr_record_of_loc].
  rewrite HdM, Hm. replace (53 + n + (e - n)) with (53 + e) by lia.
  rewrite fexp_53 by lia. replace (e - (e - n)) with n by lia.
  assert (Hshr : shr (Build_shr_record (Zpos M) false false) (e - n) n =
                 (Build_shr_record (Zpos m) false false, e)).
  { unfold shr. destruct n as [|p|p]; [| |lia].
    - rewrite Z.mul_1_r in HM. rewrite HM. f_equal. lia.
    - rewrite iter_pos_nat, HM. rewrite <- (positive_nat_Z p) at 1.
      rewrite shr_exact. f_equal. lia. }
  rewrite Hshr.
  cbn [shr_m loc_of_shr_record round_nearest_even Zdigits2 shr_record_of_loc].
  rewrite Hm, fexp_53 by lia. rewrite Z.sub_diag. cbn [shr shr_m].
  replace (e <=? Double.emax - Double.prec) with true; [reflexivity|].
  symmetry. apply Z.leb_le. unfold Double.emax, Double.prec. lia.
Qed.

Lemma binary_round_exact s m e M E :
  canonical53 m e ->
  (E <= e /\ Zpos M = Zpos m * 2 ^ (e - E)) \/ (e < E /\ Zpos m = Zpos M * 2 ^ (E - e)) ->
  binary_round Double.prec Double.emax s M E = S754_finite s m e.
Proof.
  intros Hc HME. pose proof Hc as [Hm He]. unfold binary_round.
  assert (Hd : Zpos (digits2_pos M) + E = 53 + e).
  { destruct HME as [[HE HM]|[HE HM]].
    - rewrite (digits2_shift m (e - E) ltac:(lia) M HM). lia.
    - pose proof (digits2_shift M (E - e) ltac:(lia) m HM). lia. }
  rewrite Hd, fexp_53 by lia. unfold shl_align.
  destruct HME as [[HE HM]|[HE HM]].
  - destruct (e - E) as [|p|p] eqn:Ep; try lia.
    + replace E with (e - 0) by lia.
      apply binary_round_aux_exact; [exact Hc | lia | exact HM].
    + replace E with (e - Zpos p) by lia.
      apply binary_round_aux_exact; [exact Hc | lia | exact HM].
  - destruct (e - E) as [|p|p] eqn:Ep; try lia.
    replace e with (e - 0) at 1 by lia.
    apply binary_round_aux_exact; [exact Hc | lia |].
    rewrite iter_xO, Z.mul_1_r, HM. f_equal. f_equal. lia.
Qed.

Lemma whole_exponent_range z : 0 < z < 2 ^ 53 -> -52 <= whole_exponent z <= 0.
Proof.
  intros Hz. unfold whole_exponent.
  assert (0 <= Z.log2 z) by apply Z.log2_nonneg.
  assert (Z.log2 z < 53) by (apply Z.log2_lt_pow2; lia). lia.
Qed.

Lemma whole_mantissa_spec z :
  0 < z < 2 ^ 53 -> Zpos (whole_mantissa z) = z * 2 ^ (- whole_exponent z).
Proof.
  intros Hz. pose proof (whole_exponent_range z Hz). unfold whole_mantissa.
  rewrite Z2Pos.id; [reflexivity|]. apply Z.mul_pos_pos; [lia|].
  apply Z.pow_pos_nonneg; lia.
Qed.

Lemma whole_canonical z :
  0 < z < 2 ^ 53 -> canonical53 (whole_mantissa z) (whole_exponent z).
Proof.
  intros Hz. pose proof (whole_exponent_range z Hz) as He. split; [|lia].
  destruct z as [|p|p]; try lia.
  rewrite (digits2_shift p (- whole_exponent (Zpos p)) ltac:(lia) _
             (whole_mantissa_spec _ Hz)).
  rewrite digits2_size. unfold whole_exponent. lia.
Qed.

Lemma binary_round_whole s M E z :
  0 < z < 2 ^ 53 -> E <= 0 -> Zpos M = z * 2 ^ (- E) ->
  binary_round Double.prec Double.emax s M E =
  S754_finite s (whole_mantissa z) (whole_exponent z).
Proof.
  intros Hz HE HM. pose proof (whole_exponent_range z Hz) as He.
  apply binary_round_exact; [apply whole_canonical, Hz|].
  rewrite whole_mantissa_spec by exact Hz.
  destruct (Z.le_gt_cases E (whole_exponent z)) as [Hle|Hgt].
  - left. split; [exact Hle|]. rewrite HM, <- Z.mul_assoc, <- Z.pow_add_r by lia.
    f_equal. f_equal. lia.
  - right. split; [lia|]. rewrite HM, <- Z.mul_assoc, <- Z.pow_add_r by lia.
    f_equal. f_equal. lia.
Qed.

Lemma of_Z_whole z :
  0 < z < 2 ^ 53 ->
  Double.of_Z z = S754_finite false (whole_mantissa z) (whole_exponent z).
Proof.
  intros Hz. destruct z as [|p|p]; try lia. unfold Double.of_Z, binary_normalize.
  apply binary_round_whole; [exact Hz | lia |]. cbn. lia.
Qed.

Lemma shl_align_value m e e' :
  e' <= e -> Zpos (fst (shl_align m e e')) = Zpos m * 2 ^ (e - e').
Proof.
  intros He. unfold shl_align. destruct (e' - e) as [|p|p] eqn:Ep; try lia.
  - replace (e - e') with 0 by lia. cbn [fst]. lia.
  - cbn [fst]. rewrite iter_xO. f_equal. f_equal. lia.
Qed.

Lemma whole_aligned z ez :
  0 < z < 2 ^ 53 -> ez <= whole_exponent z ->
  Zpos (fst (shl_align (whole_mantissa z) (whole_exponent z) ez)) = z * 2 ^ (- ez).
Proof.
  intros Hz Hez. pose proof (whole_exponent_range z Hz).
  rewrite shl_align_value by exact Hez. rewrite whole_mantissa_spec by exact Hz.
  rewrite <- Z.mul_assoc, <- Z.pow_add_r by lia. f_equal. f_equal. lia.
Qed.

Lemma add_whole a b :
  0 < a -> 0 < b -> a + b < 2 ^ 53 ->
  Double.add (Double.of_Z a) (Double.of_Z b) = Double.of_Z (a + b).
Proof.
  intros Ha Hb Hab. rewrite !of_Z_whole by lia. unfold Double.add, SFadd. cbn [cond_Zopp].
  pose proof (whole_exponent_range a ltac:(lia)).
  pose proof (whole_exponent_range b ltac:(lia)).
  set (ez := Z.min (whole_exponent a) (whole_exponent b)).
  rewrite !whole_aligned by lia.
  rewrite <- Z.mul_add_distr_r.
  assert (Hpos : 0 < (a + b) * 2 ^ (- ez)).
  { apply Z.mul_pos_pos; [lia|]. apply Z.pow_pos_nonneg; lia. }
  destruct ((a + b) * 2 ^ (- ez)) as [|M|M] eqn:EM; try lia.
  unfold binary_normalize. apply binary_round_whole; [lia | lia | rewrite EM; reflexivity].
Qed.

Lemma sub_whole a b :
  0 < a -> a < b -> b < 2 ^ 53 ->
  Double.sub (Double.of_Z b) (Double.of_Z a) = Double.of_Z (b - a).
Proof.
  intros Ha Hab Hb. rewrite !of_Z_whole by lia. unfold Double.sub, SFsub. cbn [cond_Zopp].
  pose proof (whole_exponent_range a ltac:(lia)).
  pose proof (whole_exponent_range b ltac:(lia)).
  set (ez := Z.min (whole_exponent b) (whole_exponent a)).
  rewrite !whole_aligned by lia.
  rewrite <- Z.mul_sub_distr_r.
  assert (Hpos : 0 < (b - a) * 2 ^ (- ez)).
  { apply Z.mul_pos_pos; [lia|]. apply Z.pow_pos_nonneg; lia. }
  destruct ((b - a) * 2 ^ (- ez)) as [|M|M] eqn:EM; try lia.
  unfold binary_normalize. apply binary_round_whole; [lia | lia | rewrite EM; reflexivity].
Qed.

Lemma div_whole d n :
  0 < n -> 0 < d < 2 ^ 53 -> n < 2 ^ 53 -> Z.divide n d ->
  Double.div (Double.of_Z d) (Double.of_Z n) = Double.of_Z (d / n).
Proof.
  intros Hn Hd Hn53 [q Hq].
  assert (Hqpos : 0 < q).
  { destruct (Z.le_gt_cases q 0) as [Hle|Hgt]; [|exact Hgt].
    assert (q * n <= 0) by (apply Z.mul_nonpos_nonneg; lia). lia. }
  assert (Hqd : q <= d).
  { subst d. rewrite <- (Z.mul_1_r q) at 1. apply Z.mul_le_mono_nonneg_l; lia. }
  assert (Hdiv : d / n = q) by (subst d; apply Z.div_mul; lia).
  rewrite Hdiv, !of_Z_whole by lia.
  pose proof (whole_exponent_range d ltac:(lia)) as Hed.
  pose proof (whole_exponent_range n ltac:(lia)) as Hen.
  pose proof (whole_exponent_range q ltac:(lia)) as Heq.
  pose proof (whole_canonical d ltac:(lia)) as [Hmd _].
  pose proof (whole_canonical n ltac:(lia)) as [Hmn _].
  unfold Double.div, SFdiv, SFdiv_core_binary. cbn [Zdigits2 xorb].
  rewrite Hmd, Hmn.
  replace (53 + whole_exponent d - (53 + whole_exponent n))
    with (whole_exponent d - whole_exponent n) by lia.
  assert (Hf : fexp Double.prec Double.emax (whole_exponent d - whole_exponent n) =
               whole_exponent d - whole_exponent n - 53)
    by (unfold fexp, emin, Double.prec, Double.emax; lia).
  rewrite Hf.
  replace (Z.min (whole_exponent d - whole_exponent n - 53)
             (whole_exponent d - whole_exponent n))
    with (whole_exponent d - whole_exponent n - 53) by lia.
  replace (whole_exponent d - whole_exponent n -
           (whole_exponent d - whole_exponent n - 53)) with 53 by lia.
  cbv beta iota.
  set (e' := whole_exponent d - whole_exponent n - 53).
  assert (HQ : Z.shiftl (Zpos (whole_mantissa d)) 53 =
               (q * 2 ^ (- e')) * Zpos (whole_mantissa n)).
  { rewrite Z.shiftl_mul_pow2, !whole_mantissa_spec by lia. rewrite Hq at 1. unfold e'.
    replace (- (whole_exponent d - whole_exponent n - 53))
      with (- whole_exponent d + 53 - - whole_exponent n) by lia.
    assert (Hsplit : 2 ^ (- whole_exponent d + 53) =
                     2 ^ (- whole_exponent d + 53 - - whole_exponent n) *
                     2 ^ (- whole_exponent n)).
    { rewrite <- Z.pow_add_r by lia. f_equal. lia. }
    rewrite <- Z.mul_assoc, <- Z.pow_add_r, Hsplit by lia. ring. }
  rewrite HQ.
  assert (Hpos : 0 < q * 2 ^ (- e')).
  { apply Z.mul_pos_pos; [lia|]. apply Z.pow_pos_nonneg; unfold e'; lia. }
  assert (Hdm : Z.div_eucl (q * 2 ^ (- e') * Zpos (whole_mantissa n))
                  (Zpos (whole_mantissa n)) = (q * 2 ^ (- e'), 0)).
  { pose proof (Z.div_mul (q * 2 ^ (- e')) (Zpos (whole_mantissa n)) ltac:(lia)) as Hdv.
    pose proof (Z.mod_mul (q * 2 ^ (- e')) (Zpos (whole_mantissa n)) ltac:(lia)) as Hmd'.
    unfold Z.div, Z.modulo in Hdv, Hmd'.
    destruct (Z.div_eucl (q * 2 ^ (- e') * Zpos (whole_mantissa n))
                (Zpos (whole_mantissa n))) as [x y].
    cbn [fst snd] in Hdv, Hmd'. subst. reflexivity. }
  rewrite Hdm.
  assert (Hloc : new_location (Zpos (whole_mantissa n)) 0 = loc_Exact).
  { unfold new_location, new_location_even, new_location_odd.
    destruct (Z.even (Zpos (whole_mantissa n))); reflexivity. }
  rewrite Hloc.
  assert (Hn0 : 0 <= whole_exponent q - e').
  { unfold e', whole_exponent. rewrite Hq.
    pose proof (Z.log2_mul_above q n ltac:(lia) ltac:(lia)). lia. }
  assert (He' : e' <= 0) by (unfold e'; lia).
  clearbody e'.
  destruct (q * 2 ^ (- e')) as [|M|M] eqn:EM; try lia.
  replace e' with (whole_exponent q - (whole_exponent q - e')) at 1 by lia.
  apply binary_round_aux_exact; [apply whole_canonical; lia | exact Hn0 |].
  rewrite <- EM, whole_mantissa_spec by lia.
  rewrite <- Z.mul_assoc, <- Z.pow_add_r by lia. f_equal. f_equal. lia.
Qed.

Lemma value_whole z :
  0 < z < 2 ^ 53 ->
  exists q, Double.value (Double.of_Z z) = Some q /\ (q == inject_Z z)%Q.
Proof.
  intros Hz. pose proof (whole_exponent_range z Hz) as He.
  rewrite of_Z_whole by exact Hz. eexists. split; [reflexivity|].
  cbn [cond_Zopp]. rewrite whole_mantissa_spec by exact Hz.
  set (n := - whole_exponent z). replace (whole_exponent z) with (- n) by lia.
  rewrite inject_Z_mult, Zpower_Qpower, Qpower_opp by lia.
  change (inject_Z 2) with 2%Q.
  assert (Hp : ~ (2 ^ n == 0)%Q) by (apply Qpower_not_0; discriminate).
  revert Hp. generalize (2 ^ n)%Q. intros p Hp. field. exact Hp.
Qed.

(** With whole numbers of microseconds below 2^53 for the bounds, and N
    a divisor of their distance, the increment and every exposure time
    accumulated from [low] is a whole number, and nothing is rounded. *)
Lemma increment_whole N a b :
  0 < a -> a < b -> b < 2 ^ 53 -> 0 < N -> Z.divide N (b - a) ->
  exposureTimeIncrement N (Double.of_Z a) (Double.of_Z b) = Double.of_Z ((b - a) / N).
Proof.
  intros Ha Hab Hb HN Hdiv. unfold exposureTimeIncrement.
  rewrite sub_whole by lia.
  assert (N <= b - a) by (apply Z.divide_pos_le; [lia | exact Hdiv]).
  apply div_whole; [lia | lia | lia | exact Hdiv].
Qed.

Lemma ramp_whole N a b (k : nat) :
  0 < a -> a < b -> b < 2 ^ 53 -> 0 < N -> Z.divide N (b - a) -> Z.of_nat k <= N ->
  ramp (Double.of_Z a) (exposureTimeIncrement N (Double.of_Z a) (Double.of_Z b)) k =
  Double.of_Z (a + Z.of_nat k * ((b - a) / N)).
Proof.
  intros Ha Hab Hb HN Hdiv. rewrite increment_whole by assumption.
  destruct Hdiv as [t Ht]. rewrite Ht, Z.div_mul by lia.
  assert (Ht0 : 0 < t).
  { destruct (Z.le_gt_cases t 0) as [Hle|Hgt]; [|exact Hgt].
    assert (t * N <= 0) by (apply Z.mul_nonpos_nonneg; lia). lia. }
  induction k as [|k IH]; intros Hk.
  - cbn [ramp]. f_equal. lia.
  - cbn [ramp]. rewrite IH by lia.
    assert (Z.of_nat (S k) * t <= N * t) by (apply Z.mul_le_mono_nonneg_r; lia).
    assert (0 <= Z.of_nat k * t) by (apply Z.mul_nonneg_nonneg; lia).
    rewrite add_whole by lia. f_equal. lia.
Qed.

Lemma whole_unrounded N a b (k : nat) :
  0 < a -> a < b -> b < 2 ^ 53 -> 0 < N -> Z.divide N (b - a) -> Z.of_nat k <= N ->
  unrounded N (Double.of_Z a) (Double.of_Z b) k.
Proof.
  intros Ha Hab Hb HN Hdiv Hk. unfold unrounded.
  rewrite ramp_whole by assumption.
  destruct (value_whole a ltac:(lia)) as (l & -> & El).
  destruct (value_whole b ltac:(lia)) as (h & -> & Eh).
  destruct Hdiv as [t Ht].
  assert (Ht0 : 0 < t).
  { destruct (Z.le_gt_cases t 0) as [Hle|Hgt]; [|exact Hgt].
    assert (t * N <= 0) by (apply Z.mul_nonpos_nonneg; lia). lia. }
  assert (Z.of_nat k * t <= N * t) by (apply Z.mul_le_mono_nonneg_r; lia).
  assert (0 <= Z.of_nat k * t) by (apply Z.mul_nonneg_nonneg; lia).
  rewrite Ht, Z.div_mul by lia.
  destruct (value_whole (a + Z.of_nat k * t) ltac:(lia)) as (q & -> & Eq).
  rewrite Eq. unfold ramp_point. rewrite El, Eh.
  replace b with (a + t * N) by lia.
  rewrite !inject_Z_plus, !inject_Z_mult. field.
  intros E. unfold Qeq in E. simpl in E. lia.
Qed.

Lemma whole_lt a b : 0 < a -> a < b -> b < 2 ^ 53 -> Double.lt (Double.of_Z a) (Double.of_Z b).
Proof.
  intros Ha Hab Hb. unfold Double.lt.
  destruct (value_whole a ltac:(lia)) as (l & -> & El).
  destruct (value_whole b ltac:(lia)) as (h & -> & Eh).
  rewrite El, Eh, <- Zlt_Qlt. exact Hab.
Qed.

(** ** The sets of the sequence program *)


Lemma sequencer_setup_sets N low high c :
  SequencerSets (sequencer_setup N low high c) =
  SequencerSets (foldl (configure_set N low high)
                   (Reg.SequencerConfigurationMode_FromString true
                      (Reg.SequencerMode_FromString false c))
                   (seqZ 0 N)).
Proof. reflexivity. Qed.




(** ** The bracket assembler, common to both programs *)

Lemma fused_app t1 t2 : fused (t1 ++ t2) = fused t1 ++ fused t2.
Proof.
  induction t1 as [|e t1 IH]; [reflexivity|].
  destruct e; simpl; rewrite ?IH; reflexivity.
Qed.

Lemma triggers_app t1 t2 : triggers (t1 ++ t2) = (triggers t1 + triggers t2)%nat.
Proof.
  induction t1 as [|e t1 IH]; [reflexivity|].
  destruct e; simpl; rewrite ?IH; reflexivity.
Qed.

Section Assembler.
Context {State : Type}.
Variable loop_body : State -> GrabResult -> list Event * Result State.
Variable bracket : State -> list CPylonImage.
Variable N : Z.
Hypothesis Hbody : assembles loop_body bracket N.

Lemma grab_loop_cons_Ok st r rest ev st' :
  loop_body st r = (ev, Ok st') ->
  grab_loop loop_body st (Retrieved r :: rest) =
  (EvRetrieveResult (Retrieved r) :: ev ++ fst (grab_loop loop_body st' rest),
   snd (grab_loop loop_body st' rest)).
Proof.
  intros E. cbn [grab_loop]. rewrite E.
  destruct (grab_loop loop_body st' rest). reflexivity.
Qed.

Lemma grab_loop_cons_Throw st r rest ev e :
  loop_body st r = (ev, Throw e) ->
  grab_loop loop_body st (Retrieved r :: rest) =
  (EvRetrieveResult (Retrieved r) :: ev, Throw e).
Proof. intros E. cbn [grab_loop]. rewrite E. reflexivity. Qed.

Lemma fused_lengths outcomes : forall st,
  Forall (fun b => Z.of_nat (length b) = N) (fused (fst (grab_loop loop_body st outcomes))).
Proof.
  induction outcomes as [|o rest IH]; intros st.
  - constructor.
  - destruct o as [r|d]; [|constructor].
    destruct (Hbody st r) as (Hf & _ & _).
    destruct (loop_body st r) as [ev [st'|e]] eqn:E.
    + rewrite (grab_loop_cons_Ok _ _ _ _ _ E). cbn [fst fused].
      rewrite fused_app. apply Forall_app. split; [|apply IH].
      cbn [fst] in Hf. rewrite Hf.
      destruct (Z.eqb_spec (Z.of_nat (length (bracket st ++ succeeded [r]))) N);
        repeat constructor; assumption.
    + rewrite (grab_loop_cons_Throw _ _ _ _ _ E). cbn [fst fused].
      cbn [fst] in Hf. rewrite Hf.
      destruct (Z.eqb_spec (Z.of_nat (length (bracket st ++ succeeded [r]))) N);
        repeat constructor; assumption.
Qed.

Lemma succeeded_length_le r : (length (succeeded [r]) <= 1)%nat.
Proof. destruct r; simpl; lia. Qed.

Lemma bracket_below outcomes : forall st ev st',
  0 < N -> Z.of_nat (length (bracket st)) < N ->
  grab_loop loop_body st outcomes = (ev, Ok st') ->
  Z.of_nat (length (bracket st')) < N.
Proof.
  induction outcomes as [|o rest IH]; intros st ev st' HN Hlen Hrun.
  - cbn in Hrun. injection Hrun as _ <-. exact Hlen.
  - destruct o as [r|d]; [|discriminate].
    destruct (Hbody st r) as (_ & Hb & _).
    destruct (loop_body st r) as [ev1 [st1|e]] eqn:E.
    + rewrite (grab_loop_cons_Ok _ _ _ _ _ E) in Hrun.
      specialize (Hb st1 eq_refl).
      apply (IH st1 (fst (grab_loop loop_body st1 rest)) st'); [exact HN| |].
      * rewrite Hb. pose proof (succeeded_length_le r) as Hr.
        destruct (Z.eqb_spec (Z.of_nat (length (bracket st ++ succeeded [r]))) N) as [|Hne].
        -- simpl. lia.
        -- rewrite length_app in *. lia.
      * injection Hrun as _ Hres. rewrite <- Hres. apply surjective_pairing.
    + rewrite (grab_loop_cons_Throw _ _ _ _ _ E) in Hrun. discriminate.
Qed.

(** Once the bracket is short of [N], bad frames alone hand nothing over. *)
Lemma failures_fuse_nothing rs : forall st,
  succeeded rs = [] -> Z.of_nat (length (bracket st)) <> N ->
  fused (fst (grab_loop loop_body st (map Retrieved rs))) = [].
Proof.
  induction rs as [|r rs IH]; intros st Hs Hlen; [reflexivity|].
  assert (Hr : succeeded [r] = [] /\ succeeded rs = []).
  { destruct r; simpl in *; [discriminate | auto]. }
  destruct Hr as [Hr Hrs].
  destruct (Hbody st r) as (Hf & Hb & Hok). rewrite Hr, app_nil_r in *.
  destruct (Z.eqb_spec (Z.of_nat (length (bracket st))) N) as [|_]; [contradiction|].
  destruct (Hok Hlen) as [st1 E1].
  destruct (loop_body st r) as [ev1 res1] eqn:E. cbn [fst snd] in *. subst res1.
  cbn [map]. rewrite (grab_loop_cons_Ok _ _ _ _ _ E). cbn [fst fused].
  rewrite fused_app, Hf. cbn [app]. apply IH; [exact Hrs|].
  rewrite (Hb st1 eq_refl). exact Hlen.
Qed.

(** The frames that complete the bracket are handed over once, together
    with the frames already there, in arrival order. *)
Lemma completes_once rs : forall st,
  0 < N -> Z.of_nat (length (bracket st)) < N ->
  Z.of_nat (length (bracket st ++ succeeded rs)) = N ->
  fused (fst (grab_loop loop_body st (map Retrieved rs))) = [bracket st ++ succeeded rs].
Proof.
  induction rs as [|r rs IH]; intros st HN Hlen Htot.
  - simpl in Htot. rewrite app_nil_r in Htot. lia.
  - destruct (Hbody st r) as (Hf & Hb & Hok).
    assert (Hsplit : succeeded (r :: rs) = succeeded [r] ++ succeeded rs)
      by (destruct r; reflexivity).
    rewrite Hsplit, app_assoc in *.
    pose proof (succeeded_length_le r) as Hr.
    destruct (loop_body st r) as [ev1 res1] eqn:E. cbn [fst snd] in *.
    destruct (Z.eqb_spec (Z.of_nat (length (bracket st ++ succeeded [r]))) N) as [Hfull|Hnot].
    + assert (Hrs : succeeded rs = []).
      { rewrite length_app in Htot. destruct (succeeded rs); [reflexivity|cbn [length] in Htot; lia]. }
      rewrite Hrs, app_nil_r. cbn [map].
      destruct res1 as [st1|e].
      * rewrite (grab_loop_cons_Ok _ _ _ _ _ E). cbn [fst fused].
        rewrite fused_app, Hf, failures_fuse_nothing; [reflexivity | exact Hrs |].
        rewrite (Hb st1 eq_refl). simpl. lia.
      * rewrite (grab_loop_cons_Throw _ _ _ _ _ E). cbn [fst fused].
        rewrite Hf. reflexivity.
    + destruct (Hok Hnot) as [st1 ->]. cbn [map].
      rewrite (grab_loop_cons_Ok _ _ _ _ _ E). cbn [fst fused].
      rewrite fused_app, Hf. cbn [app].
      specialize (Hb st1 eq_refl). rewrite <- Hb.
      apply IH; [exact HN | | rewrite Hb; exact Htot].
      rewrite Hb. rewrite length_app in *. lia.
Qed.

End Assembler.

Lemma fused_grab_and_exit {State} (body : State -> GrabResult -> list Event * Result State)
    st outcomes :
  fused (fst (grab_and_exit body st outcomes)) = fused (fst (grab_loop body st outcomes)).
Proof.
  unfold grab_and_exit. destruct (grab_loop body st outcomes) as [ev [st'|[d|d]]];
    cbn [fst app fused]; rewrite ?fused_app; cbn [fused]; rewrite ?app_nil_r; reflexivity.
Qed.

(** A run of the loop over [pre ++ rest] that gets through [pre]. *)
Lemma grab_loop_app {State} (body : State -> GrabResult -> list Event * Result State)
    pre : forall st ev st' rest,
  grab_loop body st pre = (ev, Ok st') ->
  grab_loop body st (pre ++ rest) =
  (ev ++ fst (grab_loop body st' rest), snd (grab_loop body st' rest)).
Proof.
  induction pre as [|o pre IH]; intros st ev st' rest Hrun.
  - cbn in Hrun. injection Hrun as <- <-. cbn [app]. apply surjective_pairing.
  - destruct o as [r|d]; [|discriminate].
    cbn [app]. destruct (body st r) as [ev1 [st1|e]] eqn:E.
    + rewrite (grab_loop_cons_Ok _ _ _ pre _ _ E) in Hrun.
      rewrite (grab_loop_cons_Ok _ _ _ (pre ++ rest) _ _ E).
      injection Hrun as <- Hres.
      rewrite (IH st1 (fst (grab_loop body st1 pre)) st' rest).
      * cbn [fst snd app]. rewrite app_assoc. reflexivity.
      * rewrite <- Hres. apply surjective_pairing.
    + rewrite (grab_loop_cons_Throw _ _ _ _ _ _ E) in Hrun. discriminate.
Qed.

(** ** The two loop bodies as bracket assemblers *)

Section Programs.
Context `{Libraries}.
Variables (N : Z) (low high : double).

Lemma Advanced_loop_body_failed st errorCode errorDescription :
  Z.of_nat (length (Advanced.images st)) <> N ->
  Advanced.loop_body N st (GrabFailed errorCode errorDescription) =
  ([EvGrabError errorCode errorDescription], Ok st).
Proof.
  intros Hlen. unfold Advanced.loop_body.
  destruct (Z.eqb_spec (Z.of_nat (length (Advanced.images st))) N); [contradiction|].
  reflexivity.
Qed.

Lemma Advanced_assembles : assembles (Advanced.loop_body N) Advanced.images N.
Proof.
  intros st r b. subst b. unfold Advanced.loop_body.
  destruct r as [image|c d]; cbn [succeeded Advanced.images].
  - destruct (Z.eqb_spec (Z.of_nat (length (Advanced.images st ++ [image]))) N) as [E|E].
    + destruct (CreateHDR (Advanced.images st ++ [image]) empty_image);
        (split; [reflexivity|]); (split; [|intros; contradiction]);
        intros st' Hst'; cbn in Hst'; [injection Hst' as <-; reflexivity | discriminate].
    + split; [reflexivity|]. split; [|eauto].
      intros st' Hst'. cbn in Hst'. injection Hst' as <-. reflexivity.
  - rewrite app_nil_r.
    destruct (Z.eqb_spec (Z.of_nat (length (Advanced.images st))) N) as [E|E].
    + destruct (CreateHDR (Advanced.images st) empty_image);
        (split; [reflexivity|]); (split; [|intros; contradiction]);
        intros st' Hst'; cbn in Hst'; [injection Hst' as <-; reflexivity | discriminate].
    + split; [reflexivity|]. split; [|eauto].
      intros st' Hst'. cbn in Hst'. injection Hst' as <-. reflexivity.
Qed.

Lemma Simple_trigger_next_events k camera :
  exists e, snd (Simple.trigger_next N low high k camera) = [EvExposureTime e; EvTriggerSoftware].
Proof.
  unfold Simple.trigger_next. destruct (wrap32 k =? N); cbn; eauto.
Qed.

Lemma Simple_loop_body_failed st errorCode errorDescription :
  Z.of_nat (length (Simple.images st)) <> N ->
  Simple.loop_body N low high st (GrabFailed errorCode errorDescription) =
  ([EvGrabError errorCode errorDescription], Ok st).
Proof.
  intros Hlen. unfold Simple.loop_body.
  destruct (Z.eqb_spec (Z.of_nat (length (Simple.images st))) N); [contradiction|].
  reflexivity.
Qed.

Lemma Simple_assembles : assembles (Simple.loop_body N low high) Simple.images N.
Proof.
  intros st r b. subst b. unfold Simple.loop_body.
  destruct r as [image|c d]; cbn [succeeded].
  - destruct (Simple_trigger_next_events (Simple.imageCounter st + 1) (Simple.camera st))
      as [e He].
    destruct (Simple.trigger_next N low high (Simple.imageCounter st + 1) (Simple.camera st))
      as [camera' evT]. cbn [snd] in He. subst evT. cbn [Simple.images Simple.myConverter
      Simple.mergeMertens].
    destruct (Z.eqb_spec (Z.of_nat (length (Simple.images st ++ [image]))) N) as [E|E].
    + destruct (fusion_steps (Simple.myConverter st) (Simple.mergeMertens st)
                  (Simple.images st ++ [image])) as [[conv' mm'] [hdr|ex]];
        (split; [reflexivity|]); (split; [|intros; contradiction]);
        intros st' Hst'; cbn in Hst'; [injection Hst' as <-; reflexivity | discriminate].
    + split; [reflexivity|]. split; [|eauto].
      intros st' Hst'. cbn in Hst'. injection Hst' as <-. reflexivity.
  - rewrite app_nil_r.
    destruct (Z.eqb_spec (Z.of_nat (length (Simple.images st))) N) as [E|E].
    + destruct (fusion_steps (Simple.myConverter st) (Simple.mergeMertens st)
                  (Simple.images st)) as [[conv' mm'] [hdr|ex]];
        (split; [reflexivity|]); (split; [|intros; contradiction]);
        intros st' Hst'; cbn in Hst'; [injection Hst' as <-; reflexivity | discriminate].
    + split; [reflexivity|]. split; [|eauto].
      intros st' Hst'. cbn in Hst'. injection Hst' as <-. reflexivity.
Qed.

End Programs.

Lemma grab_and_exit_timeout {State} (body : State -> GrabResult -> list Event * Result State)
    st pre ev st' description post :
  grab_loop body st pre = (ev, Ok st') ->
  grab_and_exit body st (pre ++ TimedOut description :: post) =
  ([EvStartGrabbing c_countOfImagesToGrab; EvTriggerSoftware] ++ ev ++
   [EvRetrieveResult (TimedOut description); EvExceptionOccurred description; EvPressEnter],
   Returned 1).
Proof.
  intros Hpre. unfold grab_and_exit.
  rewrite (grab_loop_app body pre st ev st' _ Hpre). cbn [grab_loop fst snd].
  rewrite <- !app_assoc. reflexivity.
Qed.

Lemma grab_loop_failures {State} (body : State -> GrabResult -> list Event * Result State)
    (fails : list (Z * string)) st :
  (forall c d, body st (GrabFailed c d) = ([EvGrabError c d], Ok st)) ->
  grab_loop body st (map (fun f => Retrieved (GrabFailed f.1 f.2)) fails) =
  (flat_map (fun f => [EvRetrieveResult (Retrieved (GrabFailed f.1 f.2)); EvGrabError f.1 f.2])
     fails, Ok st).
Proof.
  intros Hbody. induction fails as [|[c d] fails IH]; [reflexivity|].
  cbn [map flat_map fst snd].
  rewrite (grab_loop_cons_Ok body st _ _ _ _ (Hbody c d)), IH. reflexivity.
Qed.

(** ** The claims about the grab loop *)

(** C1. Every bracket handed to the fusion holds exactly N frames, in
    both programs, and between two turns of the loop the active bracket
    holds fewer than N frames (so never more than N). *)
Theorem bracket_size_invariant `{Libraries} N low high camera outcomes :
  0 < N ->
  Forall (fun b => Z.of_nat (length b) = N)
    (fused (fst (Advanced.main N low high camera outcomes))) /\
  Forall (fun b => Z.of_nat (length b) = N)
    (fused (fst (Simple.main N low high camera outcomes))) /\
  (forall ev st,
     grab_loop (Advanced.loop_body N) Advanced.initial outcomes = (ev, Ok st) ->
     Z.of_nat (length (Advanced.images st)) < N) /\
  (forall ev st,
     grab_loop (Simple.loop_body N low high) (Simple.initial low camera) outcomes = (ev, Ok st) ->
     Z.of_nat (length (Simple.images st)) < N).
Proof.
  intros HN. repeat split.
  - unfold Advanced.main. destruct (negb (SequencerMode_IsWritable camera)); [constructor|].
    unfold Advanced.run. rewrite fused_grab_and_exit.
    apply (fused_lengths _ _ _ (Advanced_assembles N)).
  - unfold Simple.main. rewrite fused_grab_and_exit.
    apply (fused_lengths _ _ _ (Simple_assembles N low high)).
  - intros ev st Hrun.
    apply (bracket_below _ _ _ (Advanced_assembles N) outcomes Advanced.initial ev st HN);
      [exact HN | exact Hrun].
  - intros ev st Hrun.
    apply (bracket_below _ _ _ (Simple_assembles N low high) outcomes
             (Simple.initial low camera) ev st HN); [exact HN | exact Hrun].
Qed.

(** C3. A failed grab result is logged and leaves the state, and with it
    the active bracket, as it was; N good frames, with any number of failed
    ones in between, are handed to the fusion once, as one bracket, in
    arrival order. *)
Theorem failed_frames_dropped `{Libraries} N low high camera :
  0 < N ->
  (forall st c d, Z.of_nat (length (Advanced.images st)) < N ->
     Advanced.loop_body N st (GrabFailed c d) = ([EvGrabError c d], Ok st)) /\
  (forall st c d, Z.of_nat (length (Simple.images st)) < N ->
     Simple.loop_body N low high st (GrabFailed c d) = ([EvGrabError c d], Ok st)) /\
  (forall rs, Z.of_nat (length (succeeded rs)) = N ->
     (SequencerMode_IsWritable camera = true ->
      fused (fst (Advanced.main N low high camera (map Retrieved rs))) = [succeeded rs]) /\
     fused (fst (Simple.main N low high camera (map Retrieved rs))) = [succeeded rs]).
Proof.
  intros HN. split; [|split].
  - intros st c d Hlen. apply Advanced_loop_body_failed. lia.
  - intros st c d Hlen. apply Simple_loop_body_failed. lia.
  - intros rs Hrs. split.
    + intros Hseq. unfold Advanced.main. rewrite Hseq. cbn [negb].
      unfold Advanced.run. rewrite fused_grab_and_exit.
      apply (completes_once _ _ _ (Advanced_assembles N) rs Advanced.initial HN);
        [simpl; lia | exact Hrs].
    + unfold Simple.main. rewrite fused_grab_and_exit.
      apply (completes_once _ _ _ (Simple_assembles N low high) rs
               (Simple.initial low camera) HN); [simpl; lia | exact Hrs].
Qed.

(** C4, as the programs have it. Failed grab results are only logged: any
    number of them in a row leaves the state of the loop, the partial
    bracket included, unchanged, and the loop goes on waiting for good
    frames. *)
Theorem failed_frames_never_reset `{Libraries} N low high (fails : list (Z * string)) :
  let outcomes := map (fun f => Retrieved (GrabFailed f.1 f.2)) fails in
  let logged :=
    flat_map (fun f => [EvRetrieveResult (Retrieved (GrabFailed f.1 f.2)); EvGrabError f.1 f.2])
      fails in
  (forall st, Z.of_nat (length (Advanced.images st)) <> N ->
     grab_loop (Advanced.loop_body N) st outcomes = (logged, Ok st)) /\
  (forall st, Z.of_nat (length (Simple.images st)) <> N ->
     grab_loop (Simple.loop_body N low high) st outcomes = (logged, Ok st)).
Proof.
  intros outcomes logged. split; intros st Hlen; apply grab_loop_failures; intros c d.
  - apply Advanced_loop_body_failed, Hlen.
  - apply Simple_loop_body_failed, Hlen.
Qed.

(** C5. A retrieval that times out ends the run: nothing is retrieved,
    triggered or fused after it, the description of the exception is
    reported, and [main] returns 1. *)
Theorem timeout_is_fatal `{Libraries} N low high camera pre description post :
  SequencerMode_IsWritable camera = true ->
  (forall ev st,
     grab_loop (Advanced.loop_body N) Advanced.initial pre = (ev, Ok st) ->
     Advanced.main N low high camera (pre ++ TimedOut description :: post) =
     ([EvStartGrabbing c_countOfImagesToGrab; EvTriggerSoftware] ++ ev ++
      [EvRetrieveResult (TimedOut description); EvExceptionOccurred description; EvPressEnter],
      Returned 1)) /\
  (forall ev st,
     grab_loop (Simple.loop_body N low high) (Simple.initial low camera) pre = (ev, Ok st) ->
     Simple.main N low high camera (pre ++ TimedOut description :: post) =
     ([EvStartGrabbing c_countOfImagesToGrab; EvTriggerSoftware] ++ ev ++
      [EvRetrieveResult (TimedOut description); EvExceptionOccurred description; EvPressEnter],
      Returned 1)).
Proof.
  intros Hseq. split; intros ev st Hpre.
  - unfold Advanced.main. rewrite Hseq. cbn [negb]. unfold Advanced.run.
    apply (grab_and_exit_timeout _ _ _ _ _ _ _ Hpre).
  - unfold Simple.main. apply (grab_and_exit_timeout _ _ _ _ _ _ _ Hpre).
Qed.

(** ** The sequencer setup tests nothing *)

(** C6, as the program has it. The sequencer setup tests neither the
    bracket size nor the exposure bounds.  With a bracket size of 1, or
    with [high] not above [low], it runs the loop as for any other
    arguments: it stores a set at every index 0 .. N-1 and touches no
    other; set 0 exposes for [low], set N-1 for [high] when there are two
    sets or more, every set in between for the exposure of its
    predecessor plus (high - low)/N, and the successor of set i is
    (i+1) mod N.  N is within the range of the loop counter. *)
Theorem sequencer_setup_unchecked N low high camera :
  1 <= N <= INT_MAX -> N = 1 \/ Double.le high low ->
  let c' := sequencer_setup N low high camera in
  (forall i, 0 <= i < N -> is_Some (SequencerSets c' !! i)) /\
  (forall i, ~ (0 <= i < N) -> SequencerSets c' !! i = SequencerSets camera !! i) /\
  step_exposure c' 0 = Some low /\
  (2 <= N -> step_exposure c' (N - 1) = Some high) /\
  (forall i, 0 < i < N - 1 ->
     exists e, step_exposure c' (i - 1) = Some e /\
               step_exposure c' i =
                 Some (Double.add e (Double.div (Double.sub high low) (Double.of_Z N)))) /\
  (forall i, 0 <= i < N -> step_successor c' i = Some ((i + 1) mod N)).
Proof.
  intros HN _ c'.
  set (c0 := Reg.SequencerConfigurationMode_FromString true
               (Reg.SequencerMode_FromString false camera)).
  assert (Hsets : SequencerSets c' =
                  SequencerSets (foldl (configure_set N low high) c0 (seqZ 0 N)))
    by apply sequencer_setup_sets.
  destruct (configure_sets_prefix N low high c0 (Z.to_nat N) HN) as (Hin & Hout & _);
    [lia|].
  rewrite Z2Nat.id in Hin, Hout by lia.
  assert (Hstep : forall i, 0 <= i < N ->
            step_exposure c' i = Some (set_ExposureTime (programmed N low high i))).
  { intros i Hi. unfold step_exposure. rewrite Hsets, Hin by lia. reflexivity. }
  repeat split.
  - intros i Hi. rewrite Hsets, Hin by lia. eauto.
  - intros i Hi. rewrite Hsets, Hout by lia. reflexivity.
  - rewrite Hstep by lia. unfold programmed. cbn [set_ExposureTime].
    destruct (0 =? N - 1); reflexivity.
  - intros H2. rewrite Hstep by lia. unfold programmed. cbn [set_ExposureTime].
    rewrite Z.eqb_refl. destruct (Z.eqb_spec (N - 1) 0); [lia | reflexivity].
  - intros i Hi. eexists. split; [apply Hstep; lia|].
    rewrite Hstep by lia. unfold programmed. cbn [set_ExposureTime].
    destruct (Z.eqb_spec i (N - 1)); [lia|].
    destruct (Z.eqb_spec (i - 1) (N - 1)); [lia|].
    replace (Z.to_nat i) with (S (Z.to_nat (i - 1))) by lia. reflexivity.
  - intros i Hi. unfold step_successor. rewrite Hsets, Hin by lia.
    unfold programmed. cbn.
    destruct (Z.eqb_spec i (N - 1)) as [->|Hne].
    + replace (N - 1 + 1) with N by lia. rewrite Z.mod_same by lia. reflexivity.
    + rewrite Z.mod_small by lia. reflexivity.
Qed.

(** ** The trigger policy of the Advanced program *)

Lemma app_eq_cons_split {A} (l1 l2 pre post : list A) x :
  l1 ++ l2 = pre ++ x :: post ->
  (exists m, l1 = pre ++ x :: m /\ post = m ++ l2) \/
  (exists m, pre = l1 ++ m /\ l2 = m ++ x :: post).
Proof.
  revert pre. induction l1 as [|a l1 IH]; intros pre E.
  - right. exists pre. auto.
  - destruct pre as [|p pre]; cbn [app] in E.
    + injection E as -> <-. left. exists l1. auto.
    + injection E as -> E. destruct (IH pre E) as [(m & -> & ->)|(m & -> & ->)].
      * left. exists m. auto.
      * right. exists m. auto.
Qed.

Lemma fuse_follows_trigger_none N trace : fused trace = [] -> fuse_follows_trigger N trace.
Proof.
  intros Hnone pre b post ->. rewrite fused_app in Hnone. cbn [fused] in Hnone.
  destruct (fused pre); discriminate.
Qed.

Lemma fuse_follows_trigger_app N t1 t2 :
  fuse_follows_trigger N t1 -> fuse_follows_trigger N t2 -> fuse_follows_trigger N (t1 ++ t2).
Proof.
  intros H1 H2 pre b post E.
  destruct (app_eq_cons_split _ _ _ _ _ E) as [(m & E1 & _)|(m & -> & E2)].
  - exact (H1 pre b m E1).
  - destruct (H2 m b post E2) as (Hlen & pre' & b' & image & k & s & Hb & ->).
    split; [exact Hlen|]. exists (t1 ++ pre'), b', image, k, s.
    rewrite app_assoc. auto.
Qed.

Section AdvancedTriggers.
Context `{Libraries}.
Variable N : Z.
Hypothesis HN : 0 < N.

Lemma Advanced_turn_follows st r :
  Z.of_nat (length (Advanced.images st)) < N ->
  fuse_follows_trigger N (EvRetrieveResult (Retrieved r) :: fst (Advanced.loop_body N st r)).
Proof.
  intros Hshort. unfold Advanced.loop_body. destruct r as [image|c d].
  - cbn [Advanced.images Advanced.stitchedImage].
    destruct (Z.eqb_spec (Z.of_nat (length (Advanced.images st ++ [image]))) N) as [E|E].
    + assert (Hshape : forall tail, fused tail = [] ->
        fuse_follows_trigger N
          ([EvRetrieveResult (Retrieved (GrabSucceeded image));
            EvImageRetrieved (Advanced.imageCounter st + 1);
            EvDisplayStitched (Advanced.stitchedImage st ++ [image]);
            EvTriggerSoftware] ++ EvFuse (Advanced.images st ++ [image]) :: tail)).
      { intros tail Htail pre b post Eq.
        destruct (app_eq_cons_split _ _ _ _ _ Eq) as [(m & E1 & _)|(m & -> & E2)].
        - exfalso. apply (f_equal fused) in E1. rewrite fused_app in E1.
          cbn [fused] in E1. destruct (fused pre); discriminate.
        - destruct m as [|e m]; cbn [app] in E2.
          + injection E2 as <- _. split; [exact E|].
            exists [], (Advanced.images st), image, (Advanced.imageCounter st + 1),
              (Advanced.stitchedImage st ++ [image]).
            rewrite app_nil_r. auto.
          + exfalso. injection E2 as _ E2. rewrite E2 in Htail.
            rewrite fused_app in Htail. cbn [fused] in Htail.
            destruct (fused m); discriminate. }
      destruct (CreateHDR (Advanced.images st ++ [image]) empty_image) as [hdrImage|e];
        cbn [fst app].
      * apply (Hshape [EvDisplayImage 0 hdrImage] eq_refl).
      * apply (Hshape [] eq_refl).
    + apply fuse_follows_trigger_none. reflexivity.
  - destruct (Z.eqb_spec (Z.of_nat (length (Advanced.images st))) N) as [E|E]; [lia|].
    apply fuse_follows_trigger_none. reflexivity.
Qed.

Lemma Advanced_turn_triggers st r :
  triggers (fst (Advanced.loop_body N st r)) = length (fused (fst (Advanced.loop_body N st r))).
Proof.
  unfold Advanced.loop_body.
  destruct r as [image|c d]; cbn [Advanced.images].
  - destruct (Z.of_nat (length (Advanced.images st ++ [image])) =? N); [|reflexivity].
    destruct (CreateHDR (Advanced.images st ++ [image]) empty_image); reflexivity.
  - destruct (Z.of_nat (length (Advanced.images st)) =? N); [|reflexivity].
    destruct (CreateHDR (Advanced.images st) empty_image); reflexivity.
Qed.

Lemma Advanced_loop_triggers outcomes : forall st,
  triggers (fst (grab_loop (Advanced.loop_body N) st outcomes)) =
  length (fused (fst (grab_loop (Advanced.loop_body N) st outcomes))).
Proof.
  induction outcomes as [|o rest IH]; intros st; [reflexivity|].
  destruct o as [r|d]; [|reflexivity].
  pose proof (Advanced_turn_triggers st r) as Ht.
  destruct (Advanced.loop_body N st r) as [ev [st'|e]] eqn:E; cbn [fst] in Ht.
  - rewrite (grab_loop_cons_Ok _ _ _ _ _ _ E). cbn [fst triggers fused].
    rewrite triggers_app, fused_app, length_app, Ht, IH. reflexivity.
  - rewrite (grab_loop_cons_Throw _ _ _ _ _ _ E). cbn [fst triggers fused]. exact Ht.
Qed.

Lemma Advanced_loop_follows outcomes : forall st,
  Z.of_nat (length (Advanced.images st)) < N ->
  fuse_follows_trigger N (fst (grab_loop (Advanced.loop_body N) st outcomes)).
Proof.
  induction outcomes as [|o rest IH]; intros st Hshort.
  - apply fuse_follows_trigger_none. reflexivity.
  - destruct o as [r|d]; [|apply fuse_follows_trigger_none; reflexivity].
    pose proof (Advanced_turn_follows st r Hshort) as Hturn.
    destruct (Advanced.loop_body N st r) as [ev [st'|e]] eqn:E; cbn [fst] in Hturn.
    + rewrite (grab_loop_cons_Ok _ _ _ _ _ _ E). cbn [fst].
      change (EvRetrieveResult (Retrieved r) :: ev ++ ?l)
        with ((EvRetrieveResult (Retrieved r) :: ev) ++ l).
      apply fuse_follows_trigger_app; [exact Hturn|]. apply IH.
      apply (bracket_below _ _ _ (Advanced_assembles N) [Retrieved r] st
               (EvRetrieveResult (Retrieved r) :: ev) st' HN Hshort).
      cbn [grab_loop]. rewrite E. cbn [grab_loop]. rewrite app_nil_r. reflexivity.
    + rewrite (grab_loop_cons_Throw _ _ _ _ _ _ E). exact Hturn.
Qed.

End AdvancedTriggers.

(** C9. In a run of the Advanced program the only trigger before the
    first retrieval is the kick-off trigger; after it there is one trigger
    for every bracket handed to the fusion, and it is sent in the turn
    that retrieved the N-th frame of the bracket, right before the
    hand-over. *)
Theorem burst_trigger_policy `{Libraries} N low high camera outcomes :
  0 < N -> SequencerMode_IsWritable camera = true ->
  let trace := fst (Advanced.main N low high camera outcomes) in
  triggers (until_next_retrieval trace) = 1%nat /\
  triggers trace = S (length (fused trace)) /\
  fuse_follows_trigger N trace.
Proof.
  intros HN Hseq trace. subst trace. unfold Advanced.main. rewrite Hseq. cbn [negb].
  unfold Advanced.run, grab_and_exit.
  pose proof (Advanced_loop_triggers N outcomes Advanced.initial) as Hcount.
  pose proof (Advanced_loop_follows N HN outcomes Advanced.initial) as Hfollow.
  assert (Hfirst : forall tail, triggers tail = O -> Forall (fun e => is_RetrieveResult e = false) tail ->
            triggers (until_next_retrieval
              (fst (grab_loop (Advanced.loop_body N) Advanced.initial outcomes) ++ tail)) = O).
  { intros tail Htail Hnr. destruct outcomes as [|[r|d] rest].
    - cbn [grab_loop fst app]. induction Hnr as [|e tail He _ IH]; [reflexivity|].
      cbn [until_next_retrieval]. rewrite He. destruct e; cbn in *; try discriminate; auto.
    - cbn [grab_loop]. destruct (Advanced.loop_body N Advanced.initial r) as [ev [st'|e]].
      + destruct (grab_loop (Advanced.loop_body N) st' rest). reflexivity.
      + reflexivity.
    - reflexivity. }
  destruct (grab_loop (Advanced.loop_body N) Advanced.initial outcomes) as [ev [st'|[d|d]]];
    cbn [fst] in *.
  - split; [|split].
    + cbn [app until_next_retrieval is_RetrieveResult triggers]. f_equal.
      apply Hfirst; [reflexivity | repeat constructor].
    + cbn [app triggers fused]. rewrite triggers_app, fused_app, length_app, Hcount.
      cbn. lia.
    + change (fuse_follows_trigger N
        ([EvStartGrabbing c_countOfImagesToGrab; EvTriggerSoftware] ++ ev ++ [EvPressEnter])).
      apply fuse_follows_trigger_app; [apply fuse_follows_trigger_none; reflexivity|].
      apply fuse_follows_trigger_app; [apply Hfollow; simpl; lia|].
      apply fuse_follows_trigger_none; reflexivity.
  - split; [|split].
    + cbn [app until_next_retrieval is_RetrieveResult triggers]. f_equal.
      apply Hfirst; [reflexivity | repeat constructor].
    + cbn [app triggers fused]. rewrite triggers_app, fused_app, length_app, Hcount.
      cbn. lia.
    + change (fuse_follows_trigger N
        ([EvStartGrabbing c_countOfImagesToGrab; EvTriggerSoftware] ++ ev ++
         [EvExceptionOccurred d; EvPressEnter])).
      apply fuse_follows_trigger_app; [apply fuse_follows_trigger_none; reflexivity|].
      apply fuse_follows_trigger_app; [apply Hfollow; simpl; lia|].
      apply fuse_follows_trigger_none; reflexivity.
  - split; [|split].
    + cbn [app until_next_retrieval is_RetrieveResult triggers]. f_equal.
      rewrite <- (app_nil_r ev). apply Hfirst; [reflexivity | constructor].
    + cbn [app triggers fused]. rewrite Hcount. reflexivity.
    + change (fuse_follows_trigger N
        ([EvStartGrabbing c_countOfImagesToGrab; EvTriggerSoftware] ++ ev)).
      apply fuse_follows_trigger_app; [apply fuse_follows_trigger_none; reflexivity|].
      apply Hfollow; simpl; lia.
Qed.

(** ** A failed frame in the Simple program *)

Lemma grab_and_exit_trace {State} (body : State -> GrabResult -> list Event * Result State)
    st outcomes :
  exists tail,
    fst (grab_and_exit body st outcomes) =
    [EvStartGrabbing c_countOfImagesToGrab; EvTriggerSoftware] ++
    fst (grab_loop body st outcomes) ++ tail /\
    (tail = [EvPressEnter] \/ (exists d, tail = [EvExceptionOccurred d; EvPressEnter]) \/
     tail = []).
Proof.
  unfold grab_and_exit.
  destruct (grab_loop body st outcomes) as [ev [st'|[d|d]]]; cbn [fst].
  - eexists. split; [reflexivity|]. auto.
  - eexists. split; [reflexivity|]. right. left. eauto.
  - exists []. rewrite app_nil_r. auto.
Qed.

Lemma grab_and_exit_done {State} (body : State -> GrabResult -> list Event * Result State)
    st outcomes ev st' :
  grab_loop body st outcomes = (ev, Ok st') ->
  grab_and_exit body st outcomes =
  ([EvStartGrabbing c_countOfImagesToGrab; EvTriggerSoftware] ++ ev ++ [EvPressEnter],
   Returned 0).
Proof. intros Hrun. unfold grab_and_exit. rewrite Hrun. reflexivity. Qed.

Lemma grab_loop_head {State} (body : State -> GrabResult -> list Event * Result State)
    st r rest :
  exists l, fst (grab_loop body st (Retrieved r :: rest)) = EvRetrieveResult (Retrieved r) :: l.
Proof.
  cbn [grab_loop]. destruct (body st r) as [ev [st'|e]].
  - destruct (grab_loop body st' rest). eexists. reflexivity.
  - eexists. reflexivity.
Qed.

Section SimpleDevice.
Context `{Libraries}.
Variables (N : Z) (low high : double).

(** A turn of the loop, seen from the camera: a good frame is answered
    with one trigger, a failed one with none. *)
Lemma Simple_turn_device st r owed rest :
  device_consistent 1 owed (fst (Simple.loop_body N low high st r) ++ rest) =
  device_consistent 1 (owed + (if is_GrabFailed r then 0 else 1)) rest.
Proof.
  unfold Simple.loop_body. destruct r as [image|c d]; cbn [is_GrabFailed].
  - destruct (Simple_trigger_next_events N low high (Simple.imageCounter st + 1)
                (Simple.camera st)) as [e He].
    destruct (Simple.trigger_next N low high (Simple.imageCounter st + 1) (Simple.camera st))
      as [camera' evT]. cbn [snd] in He. subst evT.
    cbn [Simple.images Simple.myConverter Simple.mergeMertens].
    destruct (Z.of_nat (length (Simple.images st ++ [image])) =? N); [|reflexivity].
    destruct (fusion_steps (Simple.myConverter st) (Simple.mergeMertens st)
                (Simple.images st ++ [image])) as [[conv' mm'] [hdr|ex]]; reflexivity.
  - rewrite Z.add_0_r.
    destruct (Z.of_nat (length (Simple.images st)) =? N); [|reflexivity].
    destruct (fusion_steps (Simple.myConverter st) (Simple.mergeMertens st)
                (Simple.images st)) as [[conv' mm'] [hdr|ex]]; reflexivity.
Qed.

(** Whatever the state, the turn of a failed grab result sends no trigger
    and writes no exposure time. *)
Lemma Simple_failed_turn_quiet st c d :
  Forall (fun e => exposes e = false) (fst (Simple.loop_body N low high st (GrabFailed c d))).
Proof.
  unfold Simple.loop_body.
  destruct (Z.of_nat (length (Simple.images st)) =? N); [|repeat constructor].
  destruct (fusion_steps (Simple.myConverter st) (Simple.mergeMertens st) (Simple.images st))
    as [[conv' mm'] [hdr|ex]]; repeat constructor.
Qed.

(** When the camera owes nothing, the loop can retrieve nothing. *)
Lemma Simple_stalled pre st ev st' r rest :
  grab_loop (Simple.loop_body N low high) st pre = (ev, Ok st') ->
  device_consistent 1 0 (ev ++ EvRetrieveResult (Retrieved r) :: rest) = false.
Proof.
  intros Hrun. destruct pre as [|[r0|d] pre].
  - cbn in Hrun. injection Hrun as <- _. reflexivity.
  - destruct (grab_loop_head (Simple.loop_body N low high) st r0 pre) as [l Hl].
    rewrite Hrun in Hl. cbn [fst] in Hl. subst ev. reflexivity.
  - discriminate.
Qed.

(** As long as good frames come in, the camera owes one frame at the
    head of the loop. *)
Lemma Simple_owes_one pre : forall st ev st' r rest,
  grab_loop (Simple.loop_body N low high) st pre = (ev, Ok st') ->
  device_consistent 1 1 (ev ++ EvRetrieveResult (Retrieved r) :: rest) = true ->
  device_consistent 1 1 (EvRetrieveResult (Retrieved r) :: rest) = true.
Proof.
  induction pre as [|o pre IH]; intros st ev st' r rest Hrun Hdev.
  - cbn in Hrun. injection Hrun as <- _. exact Hdev.
  - destruct o as [r0|d]; [|discriminate].
    destruct (Simple.loop_body N low high st r0) as [ev0 [st0|e]] eqn:E.
    + rewrite (grab_loop_cons_Ok _ _ _ _ _ _ E) in Hrun. injection Hrun as <- Hres.
      assert (Hrest : grab_loop (Simple.loop_body N low high) st0 pre =
                      (fst (grab_loop (Simple.loop_body N low high) st0 pre), Ok st'))
        by (rewrite <- Hres; apply surjective_pairing).
      cbn [app device_consistent] in Hdev. rewrite <- app_assoc in Hdev.
      change (0 <? 1) with true in Hdev. cbn [andb] in Hdev.
      replace ev0 with (fst (Simple.loop_body N low high st r0)) in Hdev by (rewrite E; reflexivity).
      rewrite Simple_turn_device in Hdev.
      destruct r0 as [image|c d]; cbn [is_GrabFailed] in Hdev.
      * apply (IH st0 _ st' r rest Hrest). exact Hdev.
      * change (1 - 1 + 0) with 0 in Hdev.
        rewrite (Simple_stalled pre st0 _ st' r rest Hrest) in Hdev. discriminate.
    + rewrite (grab_loop_cons_Throw _ _ _ _ _ _ E) in Hrun. discriminate.
Qed.

End SimpleDevice.

(** C10. In the Simple program the turn that retrieves a failed grab
    result only logs the error: it sends no trigger, writes no exposure
    time and leaves the state as it was.  With a camera that exposes a
    frame only when triggered, nothing is retrieved after the failed
    frame: the run goes on with the end of the acquisition or with one
    retrieval that times out. *)
Theorem failed_frame_stalls_simple `{Libraries} N low high camera pre c d post ev st :
  0 < N ->
  grab_loop (Simple.loop_body N low high) (Simple.initial low camera) pre = (ev, Ok st) ->
  let failed := Retrieved (GrabFailed c d) in
  let trace := fst (Simple.main N low high camera (pre ++ failed :: post)) in
  (forall st0 c0 d0,
     Forall (fun e => exposes e = false)
       (fst (Simple.loop_body N low high st0 (GrabFailed c0 d0)))) /\
  Simple.loop_body N low high st (GrabFailed c d) = ([EvGrabError c d], Ok st) /\
  (device_consistent 1 0 trace = true ->
   (post = [] \/ exists d' post', post = TimedOut d' :: post') /\
   trace =
     [EvStartGrabbing c_countOfImagesToGrab; EvTriggerSoftware] ++ ev ++
     [EvRetrieveResult failed; EvGrabError c d] ++
     match post with
     | TimedOut d' :: _ =>
         [EvRetrieveResult (TimedOut d'); EvExceptionOccurred d'; EvPressEnter]
     | _ => [EvPressEnter]
     end).
Proof.
  intros HN Hpre failed trace.
  split; [intros st0 c0 d0; apply Simple_failed_turn_quiet|].
  assert (Hshort : Z.of_nat (length (Simple.images st)) < N).
  { apply (bracket_below _ _ _ (Simple_assembles N low high) pre (Simple.initial low camera)
             ev st HN); [simpl; lia | exact Hpre]. }
  assert (Hturn : Simple.loop_body N low high st (GrabFailed c d) = ([EvGrabError c d], Ok st))
    by (apply Simple_loop_body_failed; lia).
  split; [exact Hturn|]. intros Hdev.
  assert (Hfailed : grab_loop (Simple.loop_body N low high) (Simple.initial low camera)
                      (pre ++ [failed]) =
                    (ev ++ [EvRetrieveResult failed; EvGrabError c d], Ok st)).
  { rewrite (grab_loop_app _ pre _ ev st _ Hpre). unfold failed.
    rewrite (grab_loop_cons_Ok _ _ _ _ _ _ Hturn). reflexivity. }
  subst trace. unfold Simple.main in *.
  destruct post as [|[r1|d1] post'].
  - split; [left; reflexivity|].
    rewrite (grab_and_exit_done _ _ _ _ _ Hfailed). cbn [fst].
    rewrite <- !app_assoc. reflexivity.
  - exfalso.
    destruct (grab_and_exit_trace (Simple.loop_body N low high) (Simple.initial low camera)
                (pre ++ failed :: Retrieved r1 :: post')) as (tail & Htrace & _).
    rewrite Htrace in Hdev.
    replace (pre ++ failed :: Retrieved r1 :: post')
      with ((pre ++ [failed]) ++ Retrieved r1 :: post') in Hdev
      by (rewrite <- app_assoc; reflexivity).
    rewrite (grab_loop_app _ _ _ _ _ _ Hfailed) in Hdev. cbn [fst] in Hdev.
    destruct (grab_loop_head (Simple.loop_body N low high) st r1 post') as [l Hl].
    rewrite Hl in Hdev.
    cbn [app device_consistent] in Hdev. change (0 + 1) with 1 in Hdev.
    rewrite <- !app_assoc in Hdev. cbn [app] in Hdev.
    pose proof (Simple_owes_one N low high pre _ _ _ (GrabFailed c d)
                  (EvGrabError c d :: EvRetrieveResult (Retrieved r1) :: l ++ tail)
                  Hpre Hdev) as Hone.
    cbn in Hone. discriminate.
  - split; [right; eauto|].
    replace (pre ++ failed :: TimedOut d1 :: post')
      with ((pre ++ [failed]) ++ TimedOut d1 :: post')
      by (rewrite <- app_assoc; reflexivity).
    rewrite (grab_and_exit_timeout _ _ _ _ _ _ _ Hfailed). cbn [fst].
    rewrite <- !app_assoc. reflexivity.
Qed.

(** ** The fusion *)



(** * The programs on concrete inputs *)

Section Witnesses.
Import StandIn Runs.
Existing Instance StandIn.libraries.

(** C1 on a run of three good frames. *)
Lemma bracket_size_invariant_witness :
  0 < c_imagesPerHDR /\
  Forall (fun b => Z.of_nat (length b) = c_imagesPerHDR)
    (fused (fst (Advanced.main c_imagesPerHDR low high blank_camera one_bracket))) /\
  Z.of_nat (length (Simple.images simple_first_state)) < c_imagesPerHDR.
Proof.
  pose proof (bracket_size_invariant c_imagesPerHDR low high blank_camera one_bracket
                ltac:(reflexivity)) as (Hadv & _ & _ & _).
  pose proof (bracket_size_invariant c_imagesPerHDR low high blank_camera
                [Retrieved (GrabSucceeded dark)] ltac:(reflexivity)) as (_ & _ & _ & Hsimple).
  split; [reflexivity|]. split; [exact Hadv|].
  apply (Hsimple simple_first_events simple_first_state). reflexivity.
Defined.

(** C3 on three good frames with two failed ones in between. *)
Lemma failed_frames_dropped_witness :
  let rs := [GrabSucceeded dark; failed; GrabSucceeded mid; failed; GrabSucceeded bright] in
  Simple.loop_body c_imagesPerHDR low high simple_first_state failed =
    ([EvGrabError 3774873620 "incomplete buffer"], Ok simple_first_state) /\
  fused (fst (Advanced.main c_imagesPerHDR low high blank_camera (map Retrieved rs))) =
    [[dark; mid; bright]] /\
  fused (fst (Simple.main c_imagesPerHDR low high blank_camera (map Retrieved rs))) =
    [[dark; mid; bright]].
Proof.
  intros rs.
  destruct (failed_frames_dropped c_imagesPerHDR low high blank_camera ltac:(reflexivity))
    as (_ & Hfailed & Hbracket).
  split; [apply Hfailed; reflexivity|].
  destruct (Hbracket rs ltac:(reflexivity)) as [Hadvanced Hsimple].
  split; [apply Hadvanced; reflexivity | exact Hsimple].
Defined.

(** C4, the claim: after one good frame and four failed grab results in
    a row (N = 3) the Advanced loop still holds the good frame, and two
    more good frames complete that very bracket. *)
Lemma failures_keep_partial_bracket :
  snd (grab_loop (Advanced.loop_body c_imagesPerHDR) Advanced.initial good_then_failures) =
    Ok (Advanced.mkState 1 [dark] [dark]) /\
  fused (fst (Advanced.run c_imagesPerHDR
                (good_then_failures ++
                 [Retrieved (GrabSucceeded mid); Retrieved (GrabSucceeded bright)]))) =
    [[dark; mid; bright]].
Proof. split; reflexivity. Qed.

(** C4 as amended, on four failed grab results after one good frame. *)
Lemma failed_frames_never_reset_witness :
  let st := Advanced.mkState 1 [dark] [dark] in
  let fails := [(1, "a"%string); (2, "b"%string); (3, "c"%string); (4, "d"%string)] in
  grab_loop (Advanced.loop_body c_imagesPerHDR) st
    (map (fun f => Retrieved (GrabFailed f.1 f.2)) fails) =
  (flat_map (fun f => [EvRetrieveResult (Retrieved (GrabFailed f.1 f.2)); EvGrabError f.1 f.2])
     fails, Ok st).
Proof.
  intros st fails.
  apply (proj1 (failed_frames_never_reset c_imagesPerHDR low high fails) st).
  vm_compute. discriminate.
Defined.

(** C5 on a time-out after the first bracket. *)
Lemma timeout_is_fatal_witness :
  Advanced.main c_imagesPerHDR low high blank_camera
    (one_bracket ++ TimedOut "Grab timed out." :: one_bracket) =
  ([EvStartGrabbing c_countOfImagesToGrab; EvTriggerSoftware] ++ one_bracket_events ++
   [EvRetrieveResult (TimedOut "Grab timed out."); EvExceptionOccurred "Grab timed out.";
    EvPressEnter], Returned 1).
Proof.
  apply (proj1 (timeout_is_fatal c_imagesPerHDR low high blank_camera one_bracket
                  "Grab timed out." one_bracket eq_refl)
           one_bracket_events (Advanced.mkState 0 [] [])).
  reflexivity.
Defined.

(** C6, the claim: a bracket size of 1, and bounds in the wrong order,
    are programmed like any other: one set that exposes for [low] and is
    its own successor, and three sets that go from [high] down to [low]. *)
Lemma setup_accepts_any_bracket :
  SequencerSets (sequencer_setup 1 low high blank_camera) !! 0 =
    Some (mkSequencerSet low 0 1) /\
  size (SequencerSets (sequencer_setup 1 low high blank_camera)) = 1%nat /\
  Double.le low high /\
  size (SequencerSets (sequencer_setup c_imagesPerHDR high low blank_camera)) = 3%nat /\
  step_exposure (sequencer_setup c_imagesPerHDR high low blank_camera) 0 = Some high /\
  step_exposure (sequencer_setup c_imagesPerHDR high low blank_camera) 1 =
    Some (Double.of_Z 66700) /\
  step_exposure (sequencer_setup c_imagesPerHDR high low blank_camera) 2 = Some low.
Proof.
  split; [reflexivity|]. split; [reflexivity|].
  split; [vm_compute; discriminate|]. repeat split; reflexivity.
Qed.

(** C6 as amended, for a bracket size of 1 and for the bounds of the
    program in the wrong order. *)
Lemma sequencer_setup_unchecked_witness :
  is_Some (SequencerSets (sequencer_setup 1 low high blank_camera) !! 0) /\
  SequencerSets (sequencer_setup 1 low high blank_camera) !! 1 = None /\
  step_exposure (sequencer_setup 1 low high blank_camera) 0 = Some low /\
  step_successor (sequencer_setup 1 low high blank_camera) 0 = Some 0 /\
  step_exposure (sequencer_setup c_imagesPerHDR high low blank_camera) 0 = Some high /\
  step_exposure (sequencer_setup c_imagesPerHDR high low blank_camera) 2 = Some low /\
  step_successor (sequencer_setup c_imagesPerHDR high low blank_camera) 2 = Some 0.
Proof.
  destruct (sequencer_setup_unchecked 1 low high blank_camera)
    as (Hin & Hout & Hlow & _ & _ & Hnext).
  - unfold INT_MAX. lia.
  - left. reflexivity.
  - destruct (sequencer_setup_unchecked c_imagesPerHDR high low blank_camera)
      as (_ & _ & Hfirst & Hlast & _ & Hcycle).
    + unfold c_imagesPerHDR, INT_MAX. lia.
    + right. vm_compute. discriminate.
    + split; [apply Hin; lia|]. split; [rewrite Hout by lia; reflexivity|].
      split; [exact Hlow|]. split; [apply (Hnext 0); lia|].
      split; [exact Hfirst|].
      split; [apply Hlast; unfold c_imagesPerHDR; lia|].
      apply (Hcycle 2). unfold c_imagesPerHDR. lia.
Defined.


(** Frames of different widths: the merger throws, not [CreateHDR], and
    [main] does not catch what it throws. *)
Example CreateHDR_mismatch_thrown_by_merger :
  CreateHDR [dark; wide] empty_image = Throw (cv_Exception "image dimensions differ") /\
  snd (Advanced.run 2 [Retrieved (GrabSucceeded dark); Retrieved (GrabSucceeded wide)]) =
    Terminated (cv_Exception "image dimensions differ").
Proof. split; reflexivity. Qed.





(** C9 on a run of one bracket. *)
Lemma burst_trigger_policy_witness :
  triggers (fst (Advanced.main c_imagesPerHDR low high blank_camera one_bracket)) = 2%nat /\
  fused (fst (Advanced.main c_imagesPerHDR low high blank_camera one_bracket)) =
    [[dark; mid; bright]] /\
  fuse_follows_trigger c_imagesPerHDR
    (fst (Advanced.main c_imagesPerHDR low high blank_camera one_bracket)).
Proof.
  destruct (burst_trigger_policy c_imagesPerHDR low high blank_camera one_bracket
              ltac:(reflexivity) ltac:(reflexivity)) as (_ & Hcount & Hfollow).
  split; [rewrite Hcount; reflexivity|]. split; [reflexivity | exact Hfollow].
Defined.

(** C10 on a good frame, a failed one and the time-out that follows. *)
Lemma failed_frame_stalls_simple_witness :
  Simple.loop_body c_imagesPerHDR low high simple_first_state failed =
    ([EvGrabError 3774873620 "incomplete buffer"], Ok simple_first_state) /\
  fst (Simple.main c_imagesPerHDR low high blank_camera
         ([Retrieved (GrabSucceeded dark)] ++ Retrieved failed :: [TimedOut "Grab timed out."])) =
  [EvStartGrabbing c_countOfImagesToGrab; EvTriggerSoftware] ++ simple_first_events ++
  [EvRetrieveResult (Retrieved failed); EvGrabError 3774873620 "incomplete buffer"] ++
  [EvRetrieveResult (TimedOut "Grab timed out."); EvExceptionOccurred "Grab timed out.";
   EvPressEnter].
Proof.
  destruct (failed_frame_stalls_simple c_imagesPerHDR low high blank_camera
              [Retrieved (GrabSucceeded dark)] 3774873620 "incomplete buffer"
              [TimedOut "Grab timed out."] simple_first_events simple_first_state
              ltac:(reflexivity) ltac:(reflexivity)) as (_ & Hturn & Hstall).
  split; [exact Hturn|].
  destruct Hstall as [_ Htrace]; [reflexivity | exact Htrace].
Defined.

(** With no image per bracket the increment is a division by zero, which
    [double] answers with infinity; the loops never add it. *)
Example increment_of_empty_bracket :
  exposureTimeIncrement 0 low high = S754_infinity false /\
  SequencerSets (sequencer_setup 0 low high blank_camera) = SequencerSets blank_camera.
Proof. split; reflexivity. Qed.

(** The exposure times of the program's own constants are whole numbers
    of microseconds, which [double] holds exactly: 100, 33400, 100000. *)
Example constants_ramp_integral :
  exposureTimeIncrement c_imagesPerHDR low high = Double.of_Z 33300 /\
  let c' := sequencer_setup c_imagesPerHDR low high blank_camera in
  step_exposure c' 0 = Some (Double.of_Z 100) /\
  step_exposure c' 1 = Some (Double.of_Z 33400) /\
  step_exposure c' 2 = Some (Double.of_Z 100000) /\
  exists q, Double.value (Double.of_Z 33400) = Some q /\ (q == 33400)%Q.
Proof.
  split; [reflexivity|]. intros c'. repeat split.
  eexists. split; reflexivity.
Qed.

End Witnesses.

(** The Simple program keeps one converter and one merger for the whole
    run.  With a merger that remembers its calls the same bracket, handed
    over twice, is shown as two different images, while [CreateHDR], which
    builds a new merger in every call, shows the same image twice. *)
Example shared_merger_remembers :
  let frame := Retrieved (GrabSucceeded StandIn.dark) in
  let simple :=
    fst (@Simple.main Remembering.libraries 1 Runs.low Runs.high blank_camera [frame; frame]) in
  let advanced :=
    fst (@Advanced.main Remembering.libraries 1 Runs.low Runs.high blank_camera [frame; frame]) in
  fused simple = [[StandIn.dark]; [StandIn.dark]] /\
  nth_error simple 7 = Some (EvDisplayImage 0 (mkPylonImage PixelType_BGR8packed 1 1 [])) /\
  nth_error simple 13 =
    Some (EvDisplayImage 0
            (mkPylonImage PixelType_BGR8packed 1 1 [Byte.xff; Byte.xff; Byte.xff])) /\
  fused advanced = [[StandIn.dark]; [StandIn.dark]] /\
  nth_error advanced 7 = nth_error advanced 13.
Proof. repeat split. Qed.

(** * Further properties of the two programs *)

(** ** Invariants of the grab loop in general *)

Section LoopInvariant.
Context {State : Type}.
Variable body : State -> GrabResult -> list Event * Result State.
Variable Inv : State -> Prop.
Hypothesis Hkeep : forall st r ev st', Inv st -> body st r = (ev, Ok st') -> Inv st'.


Variable P : Event -> Prop.
Hypothesis Hretrieve : forall o, P (EvRetrieveResult o).
Hypothesis Hturn : forall st r, Inv st -> Forall P (fst (body st r)).

Lemma grab_loop_events outcomes : forall st,
  Inv st -> Forall P (fst (grab_loop body st outcomes)).
Proof.
  induction outcomes as [|o rest IH]; intros st Hinv; [constructor|].
  destruct o as [r|d]; [|repeat constructor; apply Hretrieve].
  pose proof (Hturn st r Hinv) as Hev.
  destruct (body st r) as [ev1 [st1|e]] eqn:E; cbn [fst] in Hev.
  - rewrite (grab_loop_cons_Ok _ _ _ _ _ _ E). cbn [fst].
    constructor; [apply Hretrieve|]. apply Forall_app. split; [exact Hev|].
    apply IH. exact (Hkeep st r ev1 st1 Hinv E).
  - rewrite (grab_loop_cons_Throw _ _ _ _ _ _ E). cbn [fst].
    constructor; [apply Hretrieve | exact Hev].
Qed.

End LoopInvariant.

(** The loop is on-line: what it has done after a part of the stream is
    never taken back by what follows. *)
Lemma grab_loop_prefix {State} (body : State -> GrabResult -> list Event * Result State)
    pre rest : forall st,
  fst (grab_loop body st pre) `prefix_of` fst (grab_loop body st (pre ++ rest)).
Proof.
  induction pre as [|o pre IH]; intros st.
  - apply prefix_nil.
  - destruct o as [r|d]; [|cbn; reflexivity].
    cbn [app]. destruct (body st r) as [ev1 [st1|e]] eqn:E.
    + rewrite (grab_loop_cons_Ok _ _ _ pre _ _ E).
      rewrite (grab_loop_cons_Ok _ _ _ (pre ++ rest) _ _ E). cbn [fst].
      apply prefix_cons, prefix_app, IH.
    + rewrite (grab_loop_cons_Throw _ _ _ pre _ _ E).
      rewrite (grab_loop_cons_Throw _ _ _ (pre ++ rest) _ _ E). reflexivity.
Qed.

Lemma retrievals_app t1 t2 : retrievals (t1 ++ t2) = retrievals t1 ++ retrievals t2.
Proof.
  induction t1 as [|e t1 IH]; [reflexivity|].
  destruct e; cbn [app retrievals]; rewrite ?IH; reflexivity.
Qed.

Lemma good_retrievals_app t1 t2 :
  good_retrievals (t1 ++ t2) = (good_retrievals t1 + good_retrievals t2)%nat.
Proof.
  induction t1 as [|e t1 IH]; [reflexivity|].
  destruct e as [| | | |[[image|c d]|d]| | | | | | |]; cbn [app good_retrievals];
    rewrite ?IH; reflexivity.
Qed.

Section Retrievals.
Context {State : Type}.
Variable body : State -> GrabResult -> list Event * Result State.
Hypothesis Hquiet : forall st r, retrievals (fst (body st r)) = [].

(** The retrievals a run records are the outcomes of the stream, one by
    one from its start; a run that gets through the stream records all
    of them, and the stream holds no time-out. *)
Lemma grab_loop_retrievals outcomes : forall st,
  retrievals (fst (grab_loop body st outcomes)) `prefix_of` outcomes /\
  (forall st', snd (grab_loop body st outcomes) = Ok st' ->
     retrievals (fst (grab_loop body st outcomes)) = outcomes /\
     outcomes = map Retrieved (results outcomes)).
Proof.
  induction outcomes as [|o rest IH]; intros st.
  - split; [reflexivity|]. intros st' _. auto.
  - destruct o as [r|d].
    + pose proof (Hquiet st r) as Hq.
      destruct (body st r) as [ev1 [st1|e]] eqn:E; cbn [fst] in Hq.
      * rewrite (grab_loop_cons_Ok _ _ _ _ _ _ E). cbn [fst snd retrievals].
        rewrite retrievals_app, Hq. cbn [app].
        destruct (IH st1) as [Hpre Hall]. split; [apply prefix_cons, Hpre|].
        intros st' Hres. destruct (Hall st' Hres) as [-> Hrest].
        cbn [results map]. split; [reflexivity|]. f_equal. exact Hrest.
      * rewrite (grab_loop_cons_Throw _ _ _ _ _ _ E). cbn [fst snd retrievals].
        rewrite Hq. split; [apply prefix_cons, prefix_nil|]. discriminate.
    + cbn [grab_loop fst snd retrievals]. split; [apply prefix_cons, prefix_nil|].
      discriminate.
Qed.

End Retrievals.

(** ** What becomes of the good frames *)

Lemma succeeded_app rs1 rs2 : succeeded (rs1 ++ rs2) = succeeded rs1 ++ succeeded rs2.
Proof.
  induction rs1 as [|r rs1 IH]; [reflexivity|].
  destruct r; cbn [app succeeded]; rewrite IH; reflexivity.
Qed.

Lemma concat_full_length {A} (N : Z) (l : list (list A)) :
  Forall (fun b => Z.of_nat (length b) = N) l ->
  Z.of_nat (length (concat l)) = N * Z.of_nat (length l).
Proof.
  induction 1 as [|b l Hb _ IH]; [cbn; lia|].
  cbn [concat length]. rewrite length_app. lia.
Qed.

(** Lists cut into full brackets and a shorter rest are cut in one way. *)
Lemma full_brackets_unique {A} (N : Z) (l1 : list (list A)) : forall l2 r1 r2,
  0 < N ->
  Forall (fun b => Z.of_nat (length b) = N) l1 ->
  Forall (fun b => Z.of_nat (length b) = N) l2 ->
  Z.of_nat (length r1) < N -> Z.of_nat (length r2) < N ->
  concat l1 ++ r1 = concat l2 ++ r2 -> l1 = l2 /\ r1 = r2.
Proof.
  induction l1 as [|b1 l1 IH]; intros l2 r1 r2 HN H1 H2 Hr1 Hr2 E.
  - destruct l2 as [|b2 l2]; [auto|]. exfalso.
    apply Forall_cons in H2 as [Hb2 _]. cbn [concat app] in E.
    apply (f_equal length) in E. rewrite <- app_assoc, length_app in E. lia.
  - apply Forall_cons in H1 as [Hb1 H1].
    destruct l2 as [|b2 l2].
    + exfalso. cbn [concat app] in E.
      apply (f_equal length) in E. rewrite <- app_assoc, length_app in E. lia.
    + apply Forall_cons in H2 as [Hb2 H2]. cbn [concat] in E.
      rewrite <- !app_assoc in E.
      apply app_inj_1 in E as [-> E]; [|lia].
      destruct (IH l2 r1 r2 HN H1 H2 Hr1 Hr2 E) as [-> ->]. auto.
Qed.

Section Conservation.
Context {State : Type}.
Variable loop_body : State -> GrabResult -> list Event * Result State.
Variable bracket : State -> list CPylonImage.
Variable N : Z.
Hypothesis Hbody : assembles loop_body bracket N.

(** In a run that gets through the stream every good frame is in exactly
    one place: in a bracket handed over, or in the active bracket. *)
Lemma frames_conserved rs : forall st ev st',
  grab_loop loop_body st (map Retrieved rs) = (ev, Ok st') ->
  concat (fused ev) ++ bracket st' = bracket st ++ succeeded rs.
Proof.
  induction rs as [|r rs IH]; intros st ev st' Hrun.
  - cbn in Hrun. injection Hrun as <- <-. cbn. rewrite app_nil_r. reflexivity.
  - cbn [map] in Hrun. destruct (Hbody st r) as (Hf & Hb & _).
    destruct (loop_body st r) as [ev1 [st1|e]] eqn:E; cbn [fst snd] in Hf, Hb.
    + rewrite (grab_loop_cons_Ok _ _ _ _ _ _ E) in Hrun. injection Hrun as <- Hres.
      assert (Hrest : grab_loop loop_body st1 (map Retrieved rs) =
                      (fst (grab_loop loop_body st1 (map Retrieved rs)), Ok st'))
        by (rewrite <- Hres; apply surjective_pairing).
      specialize (IH st1 _ st' Hrest). specialize (Hb st1 eq_refl).
      assert (Hsplit : bracket st ++ succeeded (r :: rs) =
                       (bracket st ++ succeeded [r]) ++ succeeded rs).
      { change (r :: rs) with ([r] ++ rs). rewrite succeeded_app, app_assoc. reflexivity. }
      rewrite Hsplit. cbn [fused]. rewrite fused_app, concat_app, <- app_assoc, IH, Hf, Hb.
      destruct (Z.of_nat (length (bracket st ++ succeeded [r])) =? N).
      * cbn [concat app]. rewrite app_nil_r. reflexivity.
      * reflexivity.
    + rewrite (grab_loop_cons_Throw _ _ _ _ _ _ E) in Hrun. discriminate.
Qed.

(** In any run the frames handed over are, put end to end, the first of
    the good frames of the stream. *)
Lemma frames_in_order outcomes : forall st,
  concat (fused (fst (grab_loop loop_body st outcomes)))
    `prefix_of` bracket st ++ succeeded (results outcomes).
Proof.
  induction outcomes as [|o rest IH]; intros st.
  - apply prefix_nil.
  - destruct o as [r|d]; [|apply prefix_nil].
    destruct (Hbody st r) as (Hf & Hb & _).
    cbn [results]. change (r :: results rest) with ([r] ++ results rest).
    rewrite succeeded_app, app_assoc.
    destruct (loop_body st r) as [ev1 [st1|e]] eqn:E; cbn [fst snd] in Hf, Hb.
    + rewrite (grab_loop_cons_Ok _ _ _ _ _ _ E). cbn [fst fused].
      rewrite fused_app, concat_app, Hf. specialize (Hb st1 eq_refl).
      specialize (IH st1). rewrite Hb in IH.
      destruct (Z.of_nat (length (bracket st ++ succeeded [r])) =? N).
      * cbn [concat]. rewrite app_nil_r. apply prefix_app, IH.
      * exact IH.
    + rewrite (grab_loop_cons_Throw _ _ _ _ _ _ E). cbn [fst fused]. rewrite Hf.
      destruct (Z.of_nat (length (bracket st ++ succeeded [r])) =? N).
      * cbn [concat]. rewrite app_nil_r. apply prefix_app_r. reflexivity.
      * apply prefix_nil.
Qed.

(** The number of brackets handed over when the loop gets through the
    stream, starting with an empty bracket. *)
Lemma brackets_counted rs st ev st' :
  0 < N -> bracket st = [] ->
  grab_loop loop_body st (map Retrieved rs) = (ev, Ok st') ->
  Z.of_nat (length (fused ev)) = Z.of_nat (length (succeeded rs)) / N /\
  Z.of_nat (length (bracket st')) = Z.of_nat (length (succeeded rs)) mod N.
Proof.
  intros HN Hempty Hrun.
  pose proof (frames_conserved rs st ev st' Hrun) as Hcons.
  pose proof (fused_lengths _ _ _ Hbody (map Retrieved rs) st) as Hfull.
  rewrite Hrun in Hfull. cbn [fst] in Hfull.
  assert (Hshort : Z.of_nat (length (bracket st')) < N).
  { apply (bracket_below _ _ _ Hbody (map Retrieved rs) st ev st' HN); [|exact Hrun].
    rewrite Hempty. cbn. lia. }
  rewrite Hempty in Hcons. cbn [app] in Hcons.
  apply (f_equal length) in Hcons. rewrite length_app in Hcons.
  pose proof (concat_full_length N (fused ev) Hfull) as Hlen.
  assert (Heq : Z.of_nat (length (succeeded rs)) =
                N * Z.of_nat (length (fused ev)) + Z.of_nat (length (bracket st'))) by lia.
  split.
  - apply (Z.div_unique_pos _ _ _ (Z.of_nat (length (bracket st')))); [lia|exact Heq].
  - apply (Z.mod_unique_pos _ _ (Z.of_nat (length (fused ev)))); [lia|exact Heq].
Qed.

End Conservation.

Section ProgramsRetrievals.
Context `{Libraries}.
Variables (N : Z) (low high : double).

Lemma Advanced_turn_quiet st r : retrievals (fst (Advanced.loop_body N st r)) = [].
Proof.
  unfold Advanced.loop_body. destruct r as [image|c d]; cbn [Advanced.images].
  - destruct (Z.of_nat (length (Advanced.images st ++ [image])) =? N); [|reflexivity].
    destruct (CreateHDR (Advanced.images st ++ [image]) empty_image); reflexivity.
  - destruct (Z.of_nat (length (Advanced.images st)) =? N); [|reflexivity].
    destruct (CreateHDR (Advanced.images st) empty_image); reflexivity.
Qed.

Lemma Simple_turn_quiet st r : retrievals (fst (Simple.loop_body N low high st r)) = [].
Proof.
  unfold Simple.loop_body. destruct r as [image|c d].
  - destruct (Simple_trigger_next_events N low high (Simple.imageCounter st + 1)
                (Simple.camera st)) as [e He].
    destruct (Simple.trigger_next N low high (Simple.imageCounter st + 1) (Simple.camera st))
      as [camera' evT]. cbn [snd] in He. subst evT.
    cbn [Simple.images Simple.myConverter Simple.mergeMertens].
    destruct (Z.of_nat (length (Simple.images st ++ [image])) =? N); [|reflexivity].
    destruct (fusion_steps (Simple.myConverter st) (Simple.mergeMertens st)
                (Simple.images st ++ [image])) as [[conv' mm'] [hdr|ex]]; reflexivity.
  - destruct (Z.of_nat (length (Simple.images st)) =? N); [|reflexivity].
    destruct (fusion_steps (Simple.myConverter st) (Simple.mergeMertens st)
                (Simple.images st)) as [[conv' mm'] [hdr|ex]]; reflexivity.
Qed.

End ProgramsRetrievals.

Lemma grab_and_exit_zero {State} (body : State -> GrabResult -> list Event * Result State)
    st outcomes :
  snd (grab_and_exit body st outcomes) = Returned 0 ->
  exists ev st',
    grab_loop body st outcomes = (ev, Ok st') /\
    fst (grab_and_exit body st outcomes) =
    [EvStartGrabbing c_countOfImagesToGrab; EvTriggerSoftware] ++ ev ++ [EvPressEnter].
Proof.
  unfold grab_and_exit.
  destruct (grab_loop body st outcomes) as [ev [st'|[d|d]]]; cbn [snd fst];
    [|discriminate|discriminate].
  intros _. eauto.
Qed.

Lemma exit_zero_consumed {State} (body : State -> GrabResult -> list Event * Result State)
    st outcomes :
  (forall st r, retrievals (fst (body st r)) = []) ->
  snd (grab_and_exit body st outcomes) = Returned 0 ->
  retrievals (fst (grab_and_exit body st outcomes)) = outcomes /\
  (forall d, TimedOut d ∉ outcomes) /\
  last (fst (grab_and_exit body st outcomes)) = Some EvPressEnter.
Proof.
  intros Hquiet Hzero.
  destruct (grab_and_exit_zero body st outcomes Hzero) as (ev & st' & Hrun & ->).
  destruct (grab_loop_retrievals body Hquiet outcomes st) as [_ Hall].
  rewrite Hrun in Hall. cbn [fst snd] in Hall. destruct (Hall st' eq_refl) as [Hretr Hres].
  split; [|split].
  - cbn [app retrievals]. rewrite retrievals_app, Hretr. cbn. apply app_nil_r.
  - intros d Hin. rewrite Hres in Hin. apply list_elem_of_fmap in Hin as (r & Hr & _).
    discriminate.
  - rewrite app_assoc. apply last_snoc.
Qed.

(** X15 (exit code 0). When either program returns 0 it has retrieved the
    whole stream, outcome by outcome, none of them a time-out, and its
    last act is the wait for Enter. *)
Theorem exit_zero_means_stream_consumed `{Libraries} N low high camera outcomes :
  (snd (Advanced.main N low high camera outcomes) = Returned 0 ->
   SequencerMode_IsWritable camera = true /\
   retrievals (fst (Advanced.main N low high camera outcomes)) = outcomes /\
   (forall d, TimedOut d ∉ outcomes) /\
   last (fst (Advanced.main N low high camera outcomes)) = Some EvPressEnter) /\
  (snd (Simple.main N low high camera outcomes) = Returned 0 ->
   retrievals (fst (Simple.main N low high camera outcomes)) = outcomes /\
   (forall d, TimedOut d ∉ outcomes) /\
   last (fst (Simple.main N low high camera outcomes)) = Some EvPressEnter).
Proof.
  split.
  - unfold Advanced.main. destruct (SequencerMode_IsWritable camera); cbn [negb];
      [|discriminate].
    intros Hzero. split; [reflexivity|].
    apply (exit_zero_consumed _ _ _ (Advanced_turn_quiet N) Hzero).
  - unfold Simple.main. intros Hzero.
    apply (exit_zero_consumed _ _ _ (Simple_turn_quiet N low high) Hzero).
Qed.

(** Whatever the stream and however the run
    ends, the retrievals it makes are the outcomes of the stream in order
    from the first, without a gap. *)
Theorem retrievals_follow_stream `{Libraries} N low high camera outcomes :
  retrievals (fst (Advanced.main N low high camera outcomes)) `prefix_of` outcomes /\
  retrievals (fst (Simple.main N low high camera outcomes)) `prefix_of` outcomes.
Proof.
  assert (Hexit : forall State (body : State -> GrabResult -> list Event * Result State) st,
            (forall st r, retrievals (fst (body st r)) = []) ->
            retrievals (fst (grab_and_exit body st outcomes)) `prefix_of` outcomes).
  { intros State body st Hquiet.
    destruct (grab_and_exit_trace body st outcomes) as (tail & -> & Htail).
    cbn [app retrievals]. rewrite retrievals_app.
    replace (retrievals tail) with (@nil Retrieval)
      by (destruct Htail as [->|[[d ->]| ->]]; reflexivity).
    rewrite app_nil_r. apply (grab_loop_retrievals body Hquiet outcomes st). }
  split.
  - unfold Advanced.main. destruct (negb (SequencerMode_IsWritable camera)).
    + apply prefix_nil.
    + apply Hexit, Advanced_turn_quiet.
  - apply Hexit, Simple_turn_quiet.
Qed.

(** X1 (conservation of frames). When the loop of either program gets
    through a stream, the frames of the brackets handed over, followed by
    the frames of the active bracket, are the good frames of the stream
    in arrival order: none lost, none twice, none out of place. *)
Theorem good_frames_conserved `{Libraries} N low high camera rs :
  (forall ev st,
     grab_loop (Advanced.loop_body N) Advanced.initial (map Retrieved rs) = (ev, Ok st) ->
     concat (fused ev) ++ Advanced.images st = succeeded rs) /\
  (forall ev st,
     grab_loop (Simple.loop_body N low high) (Simple.initial low camera) (map Retrieved rs) =
       (ev, Ok st) ->
     concat (fused ev) ++ Simple.images st = succeeded rs).
Proof.
  split; intros ev st Hrun.
  - apply (frames_conserved _ _ _ (Advanced_assembles N) rs _ _ _ Hrun).
  - apply (frames_conserved _ _ _ (Simple_assembles N low high) rs _ _ _ Hrun).
Qed.

(** X2 (order of the frames handed over). In every run of either program,
    however it ends, the brackets handed to the fusion hold, end to end,
    the first good frames of the stream in arrival order. *)
Theorem handed_over_in_arrival_order `{Libraries} N low high camera outcomes :
  concat (fused (fst (Advanced.main N low high camera outcomes)))
    `prefix_of` succeeded (results outcomes) /\
  concat (fused (fst (Simple.main N low high camera outcomes)))
    `prefix_of` succeeded (results outcomes).
Proof.
  split.
  - unfold Advanced.main. destruct (negb (SequencerMode_IsWritable camera));
      [apply prefix_nil|].
    unfold Advanced.run. rewrite fused_grab_and_exit.
    apply (frames_in_order _ _ _ (Advanced_assembles N) outcomes Advanced.initial).
  - unfold Simple.main. rewrite fused_grab_and_exit.
    apply (frames_in_order _ _ _ (Simple_assembles N low high) outcomes
             (Simple.initial low camera)).
Qed.

(** X3 (number of brackets). When the loop gets through a stream with g
    good frames, it has handed over g / N brackets and holds g mod N
    frames in the active bracket. *)
Theorem brackets_handed_over `{Libraries} N low high camera rs :
  0 < N ->
  (forall ev st,
     grab_loop (Advanced.loop_body N) Advanced.initial (map Retrieved rs) = (ev, Ok st) ->
     Z.of_nat (length (fused ev)) = Z.of_nat (length (succeeded rs)) / N /\
     Z.of_nat (length (Advanced.images st)) = Z.of_nat (length (succeeded rs)) mod N) /\
  (forall ev st,
     grab_loop (Simple.loop_body N low high) (Simple.initial low camera) (map Retrieved rs) =
       (ev, Ok st) ->
     Z.of_nat (length (fused ev)) = Z.of_nat (length (succeeded rs)) / N /\
     Z.of_nat (length (Simple.images st)) = Z.of_nat (length (succeeded rs)) mod N).
Proof.
  intros HN. split; intros ev st Hrun.
  - apply (brackets_counted _ _ _ (Advanced_assembles N) rs Advanced.initial ev st HN
             eq_refl Hrun).
  - apply (brackets_counted _ _ _ (Simple_assembles N low high) rs (Simple.initial low camera)
             ev st HN eq_refl Hrun).
Qed.

(** X4 (the two programs assemble alike). On a stream both loops get
    through, the Simple and the Advanced program hand over the same
    brackets in the same order and are left with the same active bracket. *)
Theorem programs_assemble_alike `{Libraries} N low high camera rs evA stA evS stS :
  0 < N ->
  grab_loop (Advanced.loop_body N) Advanced.initial (map Retrieved rs) = (evA, Ok stA) ->
  grab_loop (Simple.loop_body N low high) (Simple.initial low camera) (map Retrieved rs) =
    (evS, Ok stS) ->
  fused evA = fused evS /\ Advanced.images stA = Simple.images stS.
Proof.
  intros HN HA HS.
  pose proof (frames_conserved _ _ _ (Advanced_assembles N) rs _ _ _ HA) as HcA.
  pose proof (frames_conserved _ _ _ (Simple_assembles N low high) rs _ _ _ HS) as HcS.
  cbn [Advanced.initial Advanced.images Simple.initial Simple.images app] in HcA, HcS.
  pose proof (fused_lengths _ _ _ (Advanced_assembles N) (map Retrieved rs) Advanced.initial)
    as HfA.
  pose proof (fused_lengths _ _ _ (Simple_assembles N low high) (map Retrieved rs)
                (Simple.initial low camera)) as HfS.
  rewrite HA in HfA. rewrite HS in HfS. cbn [fst] in HfA, HfS.
  apply (full_brackets_unique N); try assumption.
  - apply (bracket_below _ _ _ (Advanced_assembles N) _ _ _ _ HN) in HA; [exact HA|].
    cbn. lia.
  - apply (bracket_below _ _ _ (Simple_assembles N low high) _ _ _ _ HN) in HS; [exact HS|].
    cbn. lia.
  - rewrite HcA, HcS. reflexivity.
Qed.

(** ** The state between two turns of the loop *)

Section BetweenTurns.
Context `{Libraries}.
Variables (N : Z) (low high : double).
Hypothesis HN : 0 < N < 2 ^ 32.


Lemma Simple_between_turns_kept st r ev st' :
  Simple_between_turns N low high st -> Simple.loop_body N low high st r = (ev, Ok st') ->
  Simple_between_turns N low high st'.
Proof.
  intros (Hcount & Hstitch & Hshort & Hexp). unfold Simple.loop_body, Simple.trigger_next.
  destruct r as [image|c d].
  - assert (Hlen : Z.of_nat (length (Simple.images st ++ [image])) =
                   Simple.imageCounter st + 1) by (rewrite length_app; cbn; lia).
    rewrite (wrap32_small (Simple.imageCounter st + 1)) by lia.
    destruct (Z.eqb_spec (Simple.imageCounter st + 1) N) as [E|E];
      cbn [negb Simple.images Simple.myConverter Simple.mergeMertens Simple.camera
           Simple.stitchedImage]; rewrite Hlen.
    + rewrite E, Z.eqb_refl.
      destruct (fusion_steps (Simple.myConverter st) (Simple.mergeMertens st)
                  (Simple.images st ++ [image])) as [[conv' mm'] [hdr|ex]]; [|discriminate].
      intros [= _ <-]. repeat split; cbn; lia.
    + destruct (Z.eqb_spec (Simple.imageCounter st + 1) N) as [|_]; [contradiction|].
      intros [= _ <-]. unfold Simple_between_turns.
      cbn [Simple.imageCounter Simple.images Simple.stitchedImage Simple.camera ExposureTime
           Reg.ExposureTime_SetValue].
      rewrite Hstitch, Hexp, length_app. cbn [length]. rewrite Nat.add_1_r.
      repeat split; lia || reflexivity.
  - destruct (Z.eqb_spec (Z.of_nat (length (Simple.images st))) N) as [E|E]; [lia|].
    intros [= _ <-]. repeat split; assumption.
Qed.


Lemma Simple_initial_between_turns camera :
  Simple_between_turns N low high (Simple.initial low camera).
Proof. repeat split; cbn; lia. Qed.

End BetweenTurns.


(** ** Exposure times and triggers of the Simple program *)

Section SimpleSchedule.
Context `{Libraries}.
Variables (N : Z) (low high : double).
Hypothesis HN : 0 < N < 2 ^ 32.

Lemma Simple_turn_on_ramp st r :
  Simple_between_turns N low high st ->
  Forall (on_ramp N low high) (fst (Simple.loop_body N low high st r)).
Proof.
  intros (Hcount & Hstitch & Hshort & Hexp). unfold Simple.loop_body, Simple.trigger_next.
  destruct r as [image|c d].
  - rewrite (wrap32_small (Simple.imageCounter st + 1)) by lia.
    assert (Hlen : Z.of_nat (length (Simple.images st ++ [image])) =
                   Simple.imageCounter st + 1) by (rewrite length_app; cbn; lia).
    destruct (Z.eqb_spec (Simple.imageCounter st + 1) N) as [E|E];
      cbn [negb Simple.images Simple.myConverter Simple.mergeMertens Simple.camera app];
      rewrite Hlen.
    + rewrite E, Z.eqb_refl.
      assert (Hlow : on_ramp N low high (EvExposureTime low)) by (exists O; split; [lia|reflexivity]).
      destruct (fusion_steps (Simple.myConverter st) (Simple.mergeMertens st)
                  (Simple.images st ++ [image])) as [[conv' mm'] [hdr|ex]];
        cbn [fst app]; repeat constructor; exact Hlow.
    + destruct (Z.eqb_spec (Simple.imageCounter st + 1) N) as [|_]; [contradiction|].
      cbn [fst]. repeat constructor.
      exists (S (length (Simple.images st))). split; [lia|]. rewrite Hexp. reflexivity.
  - destruct (Z.of_nat (length (Simple.images st)) =? N); [|repeat constructor].
    destruct (fusion_steps (Simple.myConverter st) (Simple.mergeMertens st) (Simple.images st))
      as [[conv' mm'] [hdr|ex]]; repeat constructor.
Qed.

Lemma Simple_loop_on_ramp camera outcomes :
  Forall (on_ramp N low high)
    (fst (grab_loop (Simple.loop_body N low high) (Simple.initial low camera) outcomes)).
Proof.
  apply (grab_loop_events _ _ (Simple_between_turns_kept N low high HN) (on_ramp N low high)).
  - intros o. exact I.
  - apply Simple_turn_on_ramp.
  - apply Simple_initial_between_turns, HN.
Qed.

End SimpleSchedule.

(** X6 (exposure times of the Simple program). Every exposure time the
    Simple program writes during the acquisition is [low] followed by k
    additions of the increment (high - low)/N, all in [double], with
    k < N; when that sum carries no rounding error it lies between [low]
    and [high] and does not reach [high].  Nothing is rounded for bounds
    that are whole numbers below 2^53 with N a divisor of their distance. *)
Theorem simple_exposures_on_ramp `{Libraries} N low high camera outcomes e :
  0 < N <= INT_MAX -> Double.lt low high ->
  EvExposureTime e ∈ fst (Simple.main N low high camera outcomes) ->
  exists k : nat,
    Z.of_nat k < N /\ e = ramp low (exposureTimeIncrement N low high) k /\
    (unrounded N low high k -> Double.le low e /\ Double.lt e high) /\
    (forall a b, low = Double.of_Z a -> high = Double.of_Z b ->
       0 < a < b -> b < 2 ^ 53 -> Z.divide N (b - a) -> unrounded N low high k).
Proof.
  intros HN Hlh Hin. unfold INT_MAX in HN.
  assert (HN32 : 0 < N < 2 ^ 32) by lia.
  assert (Hall : Forall (on_ramp N low high) (fst (Simple.main N low high camera outcomes))).
  { unfold Simple.main.
    destruct (grab_and_exit_trace (Simple.loop_body N low high) (Simple.initial low camera)
                outcomes) as (tail & -> & Htail).
    repeat constructor. apply Forall_app. split; [apply Simple_loop_on_ramp, HN32|].
    destruct Htail as [->|[[d ->]| ->]]; repeat constructor. }
  rewrite Forall_forall in Hall. destruct (Hall _ Hin) as (k & Hk & ->).
  exists k. split; [exact Hk|]. split; [reflexivity|]. split.
  - intros Hexact.
    destruct (lt_values low high Hlh) as (l & h & Hl & Hh & Hlt).
    destruct (unrounded_value N low high l h k Hl Hh Hexact) as (q & Hq & Eq).
    unfold Double.le, Double.lt. rewrite Hl, Hh, Hq, Eq. split.
    + apply ramp_point_ge; [lia | exact Hlt].
    + apply ramp_point_below; [lia | exact Hlt | exact Hk].
  - intros a b -> -> Hab Hb Hdiv. apply whole_unrounded; lia || assumption.
Qed.

Lemma trigger_follows_none trace : good_retrievals trace = O -> trigger_follows_good_frame trace.
Proof.
  intros Hnone pre image post ->. rewrite good_retrievals_app in Hnone.
  cbn [good_retrievals] in Hnone. lia.
Qed.

Lemma trigger_follows_app t1 t2 :
  trigger_follows_good_frame t1 -> trigger_follows_good_frame t2 ->
  trigger_follows_good_frame (t1 ++ t2).
Proof.
  intros H1 H2 pre image post E.
  destruct (app_eq_cons_split _ _ _ _ _ E) as [(m & E1 & ->)|(m & -> & E2)].
  - destruct (H1 pre image m E1) as (e & post' & ->). exists e, (post' ++ t2). reflexivity.
  - exact (H2 m image post E2).
Qed.

Lemma retrievals_none_good trace : retrievals trace = [] -> good_retrievals trace = O.
Proof.
  induction trace as [|e t IH]; [reflexivity|].
  destruct e; cbn [retrievals good_retrievals]; try exact IH. discriminate.
Qed.

Section SimpleTriggers.
Context `{Libraries}.
Variables (N : Z) (low high : double).

Lemma Simple_turn_shape st image :
  exists e rest,
    fst (Simple.loop_body N low high st (GrabSucceeded image)) =
    EvExposureTime e :: EvTriggerSoftware :: rest /\ triggers rest = O.
Proof.
  unfold Simple.loop_body.
  destruct (Simple_trigger_next_events N low high (Simple.imageCounter st + 1)
              (Simple.camera st)) as [e He].
  destruct (Simple.trigger_next N low high (Simple.imageCounter st + 1) (Simple.camera st))
    as [camera' evT]. cbn [snd] in He. subst evT.
  cbn [Simple.images Simple.myConverter Simple.mergeMertens].
  destruct (Z.of_nat (length (Simple.images st ++ [image])) =? N).
  - destruct (fusion_steps (Simple.myConverter st) (Simple.mergeMertens st)
                (Simple.images st ++ [image])) as [[conv' mm'] [hdr|ex]];
      cbn [fst app]; eexists _, _; split; reflexivity.
  - cbn [fst app]. eexists _, _. split; reflexivity.
Qed.

Lemma Simple_failed_turn_triggers st c d :
  triggers (fst (Simple.loop_body N low high st (GrabFailed c d))) = O.
Proof.
  unfold Simple.loop_body.
  destruct (Z.of_nat (length (Simple.images st)) =? N); [|reflexivity].
  destruct (fusion_steps (Simple.myConverter st) (Simple.mergeMertens st) (Simple.images st))
    as [[conv' mm'] [hdr|ex]]; reflexivity.
Qed.

Lemma Simple_turn_follows st r :
  trigger_follows_good_frame
    (EvRetrieveResult (Retrieved r) :: fst (Simple.loop_body N low high st r)) /\
  triggers (EvRetrieveResult (Retrieved r) :: fst (Simple.loop_body N low high st r)) =
  good_retrievals (EvRetrieveResult (Retrieved r) :: fst (Simple.loop_body N low high st r)).
Proof.
  pose proof (retrievals_none_good _ (Simple_turn_quiet N low high st r)) as Hgood.
  destruct r as [image|c d].
  - destruct (Simple_turn_shape st image) as (e & rest & Hshape & Hrest).
    rewrite Hshape in *. split.
    + intros pre image' post E. destruct pre as [|p pre]; cbn [app] in E.
      * injection E as _ <-. eauto.
      * exfalso. injection E as _ E. rewrite E, good_retrievals_app in Hgood.
        cbn [good_retrievals] in Hgood. lia.
    + cbn [triggers good_retrievals] in *. lia.
  - split.
    + apply trigger_follows_none. exact Hgood.
    + cbn [triggers good_retrievals]. rewrite Hgood. apply Simple_failed_turn_triggers.
Qed.

Lemma Simple_loop_follows outcomes : forall st,
  trigger_follows_good_frame (fst (grab_loop (Simple.loop_body N low high) st outcomes)) /\
  triggers (fst (grab_loop (Simple.loop_body N low high) st outcomes)) =
  good_retrievals (fst (grab_loop (Simple.loop_body N low high) st outcomes)).
Proof.
  induction outcomes as [|o rest IH]; intros st.
  - split; [apply trigger_follows_none|]; reflexivity.
  - destruct o as [r|d]; [|split; [apply trigger_follows_none|]; reflexivity].
    destruct (Simple_turn_follows st r) as [Hturn Hcount].
    destruct (Simple.loop_body N low high st r) as [ev [st'|e]] eqn:E; cbn [fst] in *.
    + rewrite (grab_loop_cons_Ok _ _ _ _ _ _ E). cbn [fst].
      change (EvRetrieveResult (Retrieved r) :: ev ++ ?l)
        with ((EvRetrieveResult (Retrieved r) :: ev) ++ l).
      destruct (IH st') as [IHf IHc]. split.
      * apply trigger_follows_app; assumption.
      * rewrite triggers_app, good_retrievals_app, Hcount, IHc. reflexivity.
    + rewrite (grab_loop_cons_Throw _ _ _ _ _ _ E). cbn [fst]. auto.
Qed.

End SimpleTriggers.

(** X7 (triggers of the Simple program). In every run of the Simple
    program each good grab result is answered, before anything is done
    with its image, by the write of the next exposure time and a trigger;
    there are no other triggers but the one that starts the run. *)
Theorem simple_triggers_every_good_frame `{Libraries} N low high camera outcomes :
  let trace := fst (Simple.main N low high camera outcomes) in
  trigger_follows_good_frame trace /\
  triggers trace = S (good_retrievals trace).
Proof.
  intros trace. subst trace. unfold Simple.main.
  destruct (grab_and_exit_trace (Simple.loop_body N low high) (Simple.initial low camera)
              outcomes) as (tail & -> & Htail).
  destruct (Simple_loop_follows N low high outcomes (Simple.initial low camera))
    as [Hfollow Hcount].
  assert (Hquiet : good_retrievals tail = O /\ triggers tail = O)
    by (destruct Htail as [->|[[d ->]| ->]]; split; reflexivity).
  destruct Hquiet as [Hgood Htrig]. split.
  - apply trigger_follows_app; [apply trigger_follows_none; reflexivity|].
    apply trigger_follows_app; [exact Hfollow | apply trigger_follows_none, Hgood].
  - cbn [app triggers good_retrievals].
    rewrite triggers_app, good_retrievals_app, Hcount, Hgood, Htrig. reflexivity.
Qed.

(** ** Frames triggered and not yet retrieved *)

Lemma peak_owed_ge f o trace : o <= peak_owed f o trace.
Proof.
  revert o. induction trace as [|e t IH]; intros o; [cbn; lia|].
  destruct e as [| | | |[r|d]| | | | | | |]; cbn [peak_owed]; try apply IH; lia.
Qed.

Section AdvancedPeak.
Context `{Libraries}.
Variable N : Z.
Hypothesis HN : 0 < N.

Lemma Advanced_turn_peak st r owed rest :
  peak_owed N owed (fst (Advanced.loop_body N st r) ++ rest) =
  if Z.of_nat (length (Advanced.images st ++ succeeded [r])) =? N
  then Z.max owed (peak_owed N (owed + N) rest)
  else peak_owed N owed rest.
Proof.
  unfold Advanced.loop_body. destruct r as [image|c d]; cbn [succeeded Advanced.images].
  - destruct (Z.of_nat (length (Advanced.images st ++ [image])) =? N); [|reflexivity].
    destruct (CreateHDR (Advanced.images st ++ [image]) empty_image); reflexivity.
  - rewrite app_nil_r.
    destruct (Z.of_nat (length (Advanced.images st)) =? N); [|reflexivity].
    destruct (CreateHDR (Advanced.images st) empty_image); reflexivity.
Qed.

Lemma Advanced_loop_peak outcomes tail : forall st owed,
  (forall o, peak_owed N o tail = o) ->
  Z.of_nat (length (Advanced.images st)) < N ->
  owed + Z.of_nat (length (Advanced.images st)) <= N ->
  peak_owed N owed (fst (grab_loop (Advanced.loop_body N) st outcomes) ++ tail) <= N.
Proof.
  intros st owed Htail. revert st owed.
  induction outcomes as [|o rest IH]; intros st owed Hshort Hsum.
  - cbn [grab_loop fst app]. rewrite Htail. lia.
  - destruct o as [r|d]; [|cbn [grab_loop fst app peak_owed]; rewrite Htail; lia].
    destruct (Advanced_assembles N st r) as (_ & Hb & _).
    pose proof (Advanced_turn_peak st r (owed - 1)) as Hpeak.
    pose proof (succeeded_length_le r) as Hr.
    destruct (Advanced.loop_body N st r) as [ev [st'|e]] eqn:E; cbn [fst snd] in Hb, Hpeak.
    + rewrite (grab_loop_cons_Ok _ _ _ _ _ _ E). cbn [fst app peak_owed].
      rewrite <- app_assoc, Hpeak. specialize (Hb st' eq_refl).
      destruct (Z.eqb_spec (Z.of_nat (length (Advanced.images st ++ succeeded [r]))) N)
        as [Hfull|Hnot].
      * rewrite length_app in Hfull.
        assert (IH' := IH st' (owed - 1 + N)). rewrite Hb in IH'. cbn [length] in IH'.
        specialize (IH' ltac:(lia) ltac:(lia)). lia.
      * rewrite length_app in Hnot.
        assert (IH' := IH st' (owed - 1)). rewrite Hb, length_app in IH'.
        specialize (IH' ltac:(lia) ltac:(lia)). lia.
    + rewrite (grab_loop_cons_Throw _ _ _ _ _ _ E). cbn [fst app peak_owed].
      rewrite Hpeak.
      destruct (Z.eqb_spec (Z.of_nat (length (Advanced.images st ++ succeeded [r]))) N)
        as [Hfull|Hnot].
      * rewrite length_app in Hfull. rewrite Htail. lia.
      * rewrite Htail. lia.
Qed.

End AdvancedPeak.

Section SimplePeak.
Context `{Libraries}.
Variables (N : Z) (low high : double).

Lemma Simple_turn_peak st r owed rest :
  peak_owed 1 owed (fst (Simple.loop_body N low high st r) ++ rest) =
  if is_GrabFailed r then peak_owed 1 owed rest
  else Z.max owed (peak_owed 1 (owed + 1) rest).
Proof.
  unfold Simple.loop_body. destruct r as [image|c d]; cbn [is_GrabFailed].
  - destruct (Simple_trigger_next_events N low high (Simple.imageCounter st + 1)
                (Simple.camera st)) as [e He].
    destruct (Simple.trigger_next N low high (Simple.imageCounter st + 1) (Simple.camera st))
      as [camera' evT]. cbn [snd] in He. subst evT.
    cbn [Simple.images Simple.myConverter Simple.mergeMertens].
    destruct (Z.of_nat (length (Simple.images st ++ [image])) =? N); [|reflexivity].
    destruct (fusion_steps (Simple.myConverter st) (Simple.mergeMertens st)
                (Simple.images st ++ [image])) as [[conv' mm'] [hdr|ex]]; reflexivity.
  - destruct (Z.of_nat (length (Simple.images st)) =? N); [|reflexivity].
    destruct (fusion_steps (Simple.myConverter st) (Simple.mergeMertens st)
                (Simple.images st)) as [[conv' mm'] [hdr|ex]]; reflexivity.
Qed.

Lemma Simple_loop_peak outcomes tail : forall st owed,
  (forall o, peak_owed 1 o tail = o) -> owed <= 1 ->
  peak_owed 1 owed (fst (grab_loop (Simple.loop_body N low high) st outcomes) ++ tail) <= 1.
Proof.
  intros st owed Htail. revert st owed.
  induction outcomes as [|o rest IH]; intros st owed Hle.
  - cbn [grab_loop fst app]. rewrite Htail. lia.
  - destruct o as [r|d]; [|cbn [grab_loop fst app peak_owed]; rewrite Htail; lia].
    pose proof (Simple_turn_peak st r (owed - 1)) as Hpeak.
    destruct (Simple.loop_body N low high st r) as [ev [st'|e]] eqn:E; cbn [fst] in Hpeak.
    + rewrite (grab_loop_cons_Ok _ _ _ _ _ _ E). cbn [fst app peak_owed].
      rewrite <- app_assoc, Hpeak.
      destruct (is_GrabFailed r).
      * specialize (IH st' (owed - 1) ltac:(lia)). lia.
      * specialize (IH st' (owed - 1 + 1) ltac:(lia)). lia.
    + rewrite (grab_loop_cons_Throw _ _ _ _ _ _ E). cbn [fst app peak_owed].
      rewrite Hpeak. destruct (is_GrabFailed r); rewrite Htail; lia.
Qed.

End SimplePeak.

(** X8 (frames in flight). At no point of a run has the camera been
    triggered for more frames than were retrieved plus N in the Advanced
    program, plus one in the Simple program: the frames waiting in the
    grab engine never exceed one burst, respectively one frame. *)
Theorem frames_in_flight_bounded `{Libraries} N low high camera outcomes :
  0 < N ->
  peak_owed N 0 (fst (Advanced.main N low high camera outcomes)) <= N /\
  peak_owed 1 0 (fst (Simple.main N low high camera outcomes)) <= 1.
Proof.
  intros HN.
  assert (Htails : forall f tail,
            tail = [EvPressEnter] \/ (exists d, tail = [EvExceptionOccurred d; EvPressEnter]) \/
            tail = [] -> forall o, peak_owed f o tail = o).
  { intros f tail [->|[[d ->]| ->]] o; reflexivity. }
  split.
  - unfold Advanced.main. destruct (negb (SequencerMode_IsWritable camera)); [cbn; lia|].
    unfold Advanced.run.
    destruct (grab_and_exit_trace (Advanced.loop_body N) Advanced.initial outcomes)
      as (tail & -> & Htail).
    cbn [app peak_owed].
    pose proof (Advanced_loop_peak N HN outcomes tail Advanced.initial (0 + N)
                  (Htails N tail Htail)) as Hpeak.
    cbn [Advanced.initial Advanced.images length] in Hpeak.
    specialize (Hpeak ltac:(lia) ltac:(lia)). lia.
  - unfold Simple.main.
    destruct (grab_and_exit_trace (Simple.loop_body N low high) (Simple.initial low camera)
                outcomes) as (tail & -> & Htail).
    cbn [app peak_owed].
    pose proof (Simple_loop_peak N low high outcomes tail (Simple.initial low camera) (0 + 1)
                  (Htails 1 tail Htail) ltac:(lia)) as Hpeak.
    lia.
Qed.

(** ** A failed frame in the Advanced program *)

Section AdvancedDevice.
Context `{Libraries}.
Variable N : Z.
Hypothesis HN : 0 < N.

Lemma Advanced_turn_device st r owed rest :
  device_consistent N owed (fst (Advanced.loop_body N st r) ++ rest) =
  device_consistent N
    (if Z.of_nat (length (Advanced.images st ++ succeeded [r])) =? N then owed + N else owed)
    rest.
Proof.
  unfold Advanced.loop_body. destruct r as [image|c d]; cbn [succeeded Advanced.images].
  - destruct (Z.of_nat (length (Advanced.images st ++ [image])) =? N); [|reflexivity].
    destruct (CreateHDR (Advanced.images st ++ [image]) empty_image); reflexivity.
  - rewrite app_nil_r.
    destruct (Z.of_nat (length (Advanced.images st)) =? N); [|reflexivity].
    destruct (CreateHDR (Advanced.images st) empty_image); reflexivity.
Qed.

(** Between two turns the frames owed and the frames stored make up at
    most one burst. *)
Lemma Advanced_owes_at_most pre : forall st ev st' owed rest,
  Z.of_nat (length (Advanced.images st)) < N ->
  owed + Z.of_nat (length (Advanced.images st)) <= N ->
  grab_loop (Advanced.loop_body N) st pre = (ev, Ok st') ->
  device_consistent N owed (ev ++ rest) = true ->
  exists owed',
    owed' + Z.of_nat (length (Advanced.images st')) <= N /\
    device_consistent N owed' rest = true.
Proof.
  induction pre as [|o pre IH]; intros st ev st' owed rest Hshort Hsum Hrun Hdev.
  - cbn in Hrun. injection Hrun as <- <-. eauto.
  - destruct o as [r|d]; [|discriminate].
    destruct (Advanced_assembles N st r) as (_ & Hb & _).
    pose proof (succeeded_length_le r) as Hr.
    destruct (Advanced.loop_body N st r) as [ev0 [st0|e]] eqn:E; cbn [snd] in Hb.
    + rewrite (grab_loop_cons_Ok _ _ _ _ _ _ E) in Hrun. injection Hrun as <- Hres.
      assert (Hrest : grab_loop (Advanced.loop_body N) st0 pre =
                      (fst (grab_loop (Advanced.loop_body N) st0 pre), Ok st'))
        by (rewrite <- Hres; apply surjective_pairing).
      cbn [app device_consistent] in Hdev. rewrite <- app_assoc in Hdev.
      apply andb_prop in Hdev as [Hpos Hdev]. apply Z.ltb_lt in Hpos.
      replace ev0 with (fst (Advanced.loop_body N st r)) in Hdev by (rewrite E; reflexivity).
      rewrite Advanced_turn_device in Hdev. specialize (Hb st0 eq_refl).
      destruct (Z.eqb_spec (Z.of_nat (length (Advanced.images st ++ succeeded [r]))) N)
        as [Hfull|Hnot]; rewrite length_app in *.
      * apply (IH st0 (fst (grab_loop (Advanced.loop_body N) st0 pre)) st' (owed - 1 + N) rest);
          [| |exact Hrest|exact Hdev];
          rewrite Hb; cbn [length]; lia.
      * apply (IH st0 (fst (grab_loop (Advanced.loop_body N) st0 pre)) st' (owed - 1) rest);
          [| |exact Hrest|exact Hdev];
          rewrite Hb, length_app; lia.
    + rewrite (grab_loop_cons_Throw _ _ _ _ _ _ E) in Hrun. discriminate.
Qed.

(** Once they make up less than a burst, no bracket is completed. *)
Lemma Advanced_short_of_burst outcomes : forall st owed rest,
  owed + Z.of_nat (length (Advanced.images st)) < N ->
  device_consistent N owed (fst (grab_loop (Advanced.loop_body N) st outcomes) ++ rest) = true ->
  fused (fst (grab_loop (Advanced.loop_body N) st outcomes)) = [] /\
  triggers (fst (grab_loop (Advanced.loop_body N) st outcomes)) = O.
Proof.
  induction outcomes as [|o outcomes IH]; intros st owed rest Hsum Hdev; [auto|].
  destruct o as [r|d]; [|auto].
  destruct (Advanced_assembles N st r) as (Hf & Hb & Hok).
  pose proof (Advanced_turn_triggers N st r) as Ht.
  pose proof (Advanced_turn_device st r (owed - 1)) as Hturn.
  pose proof (succeeded_length_le r) as Hr.
  destruct (Advanced.loop_body N st r) as [ev0 [st0|e]] eqn:E; cbn [fst snd] in *.
  - rewrite (grab_loop_cons_Ok _ _ _ _ _ _ E) in *. cbn [fst app device_consistent] in *.
    rewrite <- app_assoc in Hdev.
    apply andb_prop in Hdev as [Hpos Hdev]. apply Z.ltb_lt in Hpos.
    rewrite Hturn in Hdev. specialize (Hb st0 eq_refl).
    destruct (Z.eqb_spec (Z.of_nat (length (Advanced.images st ++ succeeded [r]))) N)
      as [Hfull|Hnot]; rewrite length_app in *; [lia|].
    destruct (IH st0 (owed - 1) rest) as [IHf IHt]; [rewrite Hb, length_app; lia|exact Hdev|].
    cbn [fused triggers]. rewrite fused_app, triggers_app, Hf, Ht, Hf, IHf, IHt. auto.
  - exfalso. destruct (Z.eqb_spec (Z.of_nat (length (Advanced.images st ++ succeeded [r]))) N)
      as [Hfull|Hnot].
    + rewrite (grab_loop_cons_Throw _ _ _ _ _ _ E) in Hdev.
      cbn [fst app device_consistent] in Hdev.
      apply andb_prop in Hdev as [Hpos _]. apply Z.ltb_lt in Hpos.
      rewrite length_app in Hfull. lia.
    + destruct (Hok Hnot) as [st0 Hst0]. discriminate.
Qed.

End AdvancedDevice.

(** X9 (a failed frame in the Advanced program). With a camera that
    delivers one burst of N frames per trigger and nothing else, a failed
    grab result is the end of the acquisition: the burst it belongs to
    can no longer fill a bracket, so after it no bracket is handed over
    and no trigger is sent. *)
Theorem failed_frame_stalls_advanced `{Libraries} N low high camera pre c d post ev st :
  0 < N -> SequencerMode_IsWritable camera = true ->
  grab_loop (Advanced.loop_body N) Advanced.initial pre = (ev, Ok st) ->
  let trace :=
    fst (Advanced.main N low high camera (pre ++ Retrieved (GrabFailed c d) :: post)) in
  device_consistent N 0 trace = true ->
  fused trace = fused ev /\ triggers trace = S (triggers ev).
Proof.
  intros HN Hseq Hpre trace Hdev. subst trace.
  unfold Advanced.main in *. rewrite Hseq in *. cbn [negb] in *. unfold Advanced.run in *.
  destruct (grab_and_exit_trace (Advanced.loop_body N) Advanced.initial
              (pre ++ Retrieved (GrabFailed c d) :: post)) as (tail & Htrace & Htail).
  rewrite Htrace in *. clear Htrace.
  assert (Hshort : Z.of_nat (length (Advanced.images st)) < N).
  { apply (bracket_below _ _ _ (Advanced_assembles N) pre Advanced.initial ev st HN);
      [cbn; lia | exact Hpre]. }
  assert (Hturn : Advanced.loop_body N st (GrabFailed c d) = ([EvGrabError c d], Ok st))
    by (apply Advanced_loop_body_failed; lia).
  rewrite (grab_loop_app _ pre _ ev st _ Hpre) in *. cbn [fst] in *.
  rewrite (grab_loop_cons_Ok _ _ _ _ _ _ Hturn) in *. cbn [fst] in *.
  set (after := fst (grab_loop (Advanced.loop_body N) st post)) in *.
  cbn [app device_consistent] in Hdev. rewrite <- app_assoc in Hdev.
  destruct (Advanced_owes_at_most N HN pre Advanced.initial ev st (0 + N) _
              ltac:(cbn; lia) ltac:(cbn; lia) Hpre Hdev) as (owed & Hsum & Hdev').
  cbn [app device_consistent] in Hdev'.
  apply andb_prop in Hdev' as [Hpos Hdev']. apply Z.ltb_lt in Hpos.
  destruct (Advanced_short_of_burst N post st (owed - 1) tail ltac:(lia) Hdev')
    as [Hnone Hquiet].
  fold after in Hnone, Hquiet.
  assert (Hexit : fused tail = [] /\ triggers tail = O)
    by (destruct Htail as [->|[[d' ->]| ->]]; split; reflexivity).
  destruct Hexit as [Hft Htt]. split.
  - repeat first [rewrite fused_app | progress cbn [fused app]].
    rewrite Hnone, Hft, !app_nil_r. reflexivity.
  - repeat first [rewrite triggers_app | progress cbn [triggers app]].
    rewrite Hquiet, Htt. lia.
Qed.

(** ** The sequence program as a cycle *)

Lemma sequencer_setup_lookup N low high c :
  1 <= N <= INT_MAX ->
  (forall i, 0 <= i < N ->
     SequencerSets (sequencer_setup N low high c) !! i = Some (programmed N low high i)) /\
  (forall i, ~ (0 <= i < N) ->
     SequencerSets (sequencer_setup N low high c) !! i = SequencerSets c !! i).
Proof.
  intros HN.
  destruct (configure_sets_prefix N low high
              (Reg.SequencerConfigurationMode_FromString true
                 (Reg.SequencerMode_FromString false c)) (Z.to_nat N) HN) as (Hin & Hout & _);
    [lia|].
  rewrite Z2Nat.id in Hin, Hout by lia.
  split; intros i Hi; rewrite sequencer_setup_sets.
  - apply Hin, Hi.
  - rewrite Hout by exact Hi. reflexivity.
Qed.


Lemma follow_programmed N low high c (k : nat) : forall i,
  1 <= N <= INT_MAX -> 0 <= i < N ->
  follow (sequencer_setup N low high c) k i = Some ((i + Z.of_nat k) mod N).
Proof.
  induction k as [|k IH]; intros i HN Hi.
  - cbn [follow]. rewrite Z.add_0_r, Z.mod_small by lia. reflexivity.
  - cbn [follow]. unfold step_successor.
    destruct (sequencer_setup_lookup N low high c HN) as [Hin _].
    rewrite (Hin i Hi). cbn [fmap option_fmap option_map programmed set_SequencerSetNext].
    destruct (Z.eqb_spec i (N - 1)) as [->|Hne].
    + rewrite IH by lia. f_equal.
      replace (N - 1 + Z.of_nat (S k)) with (0 + Z.of_nat k + 1 * N) by lia.
      rewrite Z.mod_add by lia. reflexivity.
    + rewrite IH by lia. f_equal. f_equal. lia.
Qed.

Lemma sequence_program_cycles_aux N low high c (k : nat) :
  1 <= N <= INT_MAX ->
  follow (sequencer_setup N low high c) k 0 = Some (Z.of_nat k mod N).
Proof.
  intros HN. rewrite follow_programmed by lia. reflexivity.
Qed.

(** X10 (the sequence program is one cycle). After the sequencer setup the
    k-th frame taken from set 0 on is taken with set k mod N: the sets
    0 .. N-1 follow each other in order and the last leads back to set 0.
    N is within the range of the loop counter. *)
Theorem sequence_program_cycles N low high c (k : nat) :
  1 <= N <= INT_MAX ->
  follow (sequencer_setup N low high c) k 0 = Some (Z.of_nat k mod N).
Proof. apply sequence_program_cycles_aux. Qed.


(** X12 (the setup replaces the program and nothing else). The sets
    0 .. N-1 the setup stores do not depend on what the camera held
    before; running the setup again changes nothing; and no set the
    camera held is removed.  N is within the range of the loop counter. *)
Theorem sequencer_setup_overwrites N low high c1 c2 :
  1 <= N <= INT_MAX ->
  (forall i, 0 <= i < N ->
     SequencerSets (sequencer_setup N low high c1) !! i =
     SequencerSets (sequencer_setup N low high c2) !! i) /\
  SequencerSets (sequencer_setup N low high (sequencer_setup N low high c1)) =
    SequencerSets (sequencer_setup N low high c1) /\
  dom (SequencerSets c1) ⊆ dom (SequencerSets (sequencer_setup N low high c1)).
Proof.
  intros HN.
  destruct (sequencer_setup_lookup N low high c1 HN) as [Hin1 Hout1].
  destruct (sequencer_setup_lookup N low high c2 HN) as [Hin2 _].
  destruct (sequencer_setup_lookup N low high (sequencer_setup N low high c1) HN)
    as [Hin3 Hout3].
  split; [|split].
  - intros i Hi. rewrite Hin1, Hin2 by exact Hi. reflexivity.
  - apply map_eq. intros i.
    destruct (decide (0 <= i < N)) as [Hi|Hi].
    + rewrite Hin3, Hin1 by exact Hi. reflexivity.
    + rewrite Hout3 by exact Hi. reflexivity.
  - intros i Hdom. apply elem_of_dom in Hdom. apply elem_of_dom.
    destruct (decide (0 <= i < N)) as [Hi|Hi].
    + rewrite Hin1 by exact Hi. eauto.
    + rewrite Hout1 by exact Hi. exact Hdom.
Qed.

(** ** What the fusion shows *)

Lemma fusion_steps_BGR8 `{Libraries} conv mm images hdrImage :
  snd (fusion_steps conv mm images) = Ok hdrImage ->
  GetPixelType hdrImage = PixelType_BGR8packed.
Proof.
  unfold fusion_steps.
  destruct (convert_images conv images []) as [conv' [cv_images|e]]; [|discriminate].
  destruct (process mm cv_images) as [mm' [fusion|e]]; [|discriminate].
  intros [= <-]. reflexivity.
Qed.

Lemma CreateHDR_fusion_steps `{Libraries} images OutputImage :
  CreateHDR images OutputImage =
  snd (fusion_steps (OutputPixelFormat_SetValue PixelType_BGR8packed new_CImageFormatConverter)
         createMergeMertens images).
Proof.
  unfold CreateHDR.
  destruct (snd (fusion_steps _ _ images)); reflexivity.
Qed.

Section Display.
Context `{Libraries}.
Variables (N : Z) (low high : double).

Lemma Advanced_turn_shows_BGR8 st r : Forall shows_BGR8 (fst (Advanced.loop_body N st r)).
Proof.
  assert (Hhdr : forall images hdr, CreateHDR images empty_image = Ok hdr ->
                   shows_BGR8 (EvDisplayImage 0 hdr)).
  { intros images hdr Hhdr. rewrite CreateHDR_fusion_steps in Hhdr.
    split; [reflexivity | exact (fusion_steps_BGR8 _ _ _ _ Hhdr)]. }
  unfold Advanced.loop_body. destruct r as [image|c d]; cbn [Advanced.images].
  - destruct (Z.of_nat (length (Advanced.images st ++ [image])) =? N);
      [|repeat constructor].
    destruct (CreateHDR (Advanced.images st ++ [image]) empty_image) eqn:E;
      repeat constructor. apply (Hhdr _ _ E).
  - destruct (Z.of_nat (length (Advanced.images st)) =? N); [|repeat constructor].
    destruct (CreateHDR (Advanced.images st) empty_image) eqn:E;
      repeat constructor. apply (Hhdr _ _ E).
Qed.

Lemma Simple_turn_shows_BGR8 st r :
  Forall shows_BGR8 (fst (Simple.loop_body N low high st r)).
Proof.
  unfold Simple.loop_body. destruct r as [image|c d].
  - destruct (Simple_trigger_next_events N low high (Simple.imageCounter st + 1)
                (Simple.camera st)) as [e He].
    destruct (Simple.trigger_next N low high (Simple.imageCounter st + 1) (Simple.camera st))
      as [camera' evT]. cbn [snd] in He. subst evT.
    cbn [Simple.images Simple.myConverter Simple.mergeMertens].
    destruct (Z.of_nat (length (Simple.images st ++ [image])) =? N); [|repeat constructor].
    pose proof (fusion_steps_BGR8 (Simple.myConverter st) (Simple.mergeMertens st)
                  (Simple.images st ++ [image])) as Hhdr.
    destruct (fusion_steps (Simple.myConverter st) (Simple.mergeMertens st)
                (Simple.images st ++ [image])) as [[conv' mm'] [hdr|ex]];
      repeat constructor. apply Hhdr. reflexivity.
  - destruct (Z.of_nat (length (Simple.images st)) =? N); [|repeat constructor].
    pose proof (fusion_steps_BGR8 (Simple.myConverter st) (Simple.mergeMertens st)
                  (Simple.images st)) as Hhdr.
    destruct (fusion_steps (Simple.myConverter st) (Simple.mergeMertens st) (Simple.images st))
      as [[conv' mm'] [hdr|ex]]; repeat constructor. apply Hhdr. reflexivity.
Qed.

End Display.

(** X13 (what is displayed). Whatever the pixel types of the frames
    retrieved, every image either program shows with [DisplayImage] in
    its trace of fused images is shown in window 0 and is a BGR8packed
    image. *)
Theorem fused_images_are_BGR8 `{Libraries} N low high camera outcomes window image :
  (EvDisplayImage window image ∈ fst (Advanced.main N low high camera outcomes) ->
   window = 0 /\ GetPixelType image = PixelType_BGR8packed) /\
  (EvDisplayImage window image ∈ fst (Simple.main N low high camera outcomes) ->
   window = 0 /\ GetPixelType image = PixelType_BGR8packed).
Proof.
  assert (Hexit : forall State (body : State -> GrabResult -> list Event * Result State) st,
            (forall st r, Forall shows_BGR8 (fst (body st r))) ->
            Forall shows_BGR8 (fst (grab_and_exit body st outcomes))).
  { intros State body st Hturn.
    destruct (grab_and_exit_trace body st outcomes) as (tail & -> & Htail).
    repeat constructor. apply Forall_app. split.
    - apply (grab_loop_events body (fun _ => True)); auto. intros o. exact I.
    - destruct Htail as [->|[[d ->]| ->]]; repeat constructor. }
  split; intros Hin.
  - unfold Advanced.main in Hin. destruct (negb (SequencerMode_IsWritable camera)).
    + apply list_elem_of_singleton in Hin. discriminate.
    + pose proof (Hexit _ _ Advanced.initial (Advanced_turn_shows_BGR8 N)) as Hall.
      rewrite Forall_forall in Hall. exact (Hall _ Hin).
  - pose proof (Hexit _ _ (Simple.initial low camera) (Simple_turn_shows_BGR8 N low high))
      as Hall.
    rewrite Forall_forall in Hall. exact (Hall _ Hin).
Qed.

(** ** The two programs with libraries that keep no state *)

Lemma hdr_view_app t1 t2 : hdr_view (t1 ++ t2) = hdr_view t1 ++ hdr_view t2.
Proof.
  induction t1 as [|e t1 IH]; [reflexivity|].
  cbn [app hdr_view]. destruct (is_hdr_output e); rewrite IH; reflexivity.
Qed.

Section Stateless.
Context `{Libraries}.
Variables (N : Z) (low high : double).
Hypothesis Hstateless : stateless.

Lemma convert_images_stateless images : forall conv acc,
  fst (convert_images conv images acc) = conv.
Proof.
  destruct Hstateless as [Hconv _].
  induction images as [|image rest IH]; intros conv acc; [reflexivity|].
  cbn [convert_images]. pose proof (Hconv conv image) as Hc.
  destruct (Convert conv image) as [conv' [converted|e]]; cbn [fst] in Hc; subst conv'.
  - apply IH.
  - reflexivity.
Qed.

Lemma fusion_steps_stateless conv mm images :
  fusion_steps conv mm images = (conv, mm, snd (fusion_steps conv mm images)).
Proof.
  destruct Hstateless as [_ Hmerge]. unfold fusion_steps.
  pose proof (convert_images_stateless images conv []) as Hc.
  destruct (convert_images conv images []) as [conv' [cv_images|e]]; cbn [fst] in Hc;
    subst conv'; [|reflexivity].
  pose proof (Hmerge mm cv_images) as Hm.
  destruct (process mm cv_images) as [mm' [fusion|e]]; cbn [fst] in Hm; subst mm';
    reflexivity.
Qed.

Lemma turns_alike stS stA r :
  alike stS stA ->
  hdr_view (fst (Simple.loop_body N low high stS r)) =
    hdr_view (fst (Advanced.loop_body N stA r)) /\
  end_alike (snd (Simple.loop_body N low high stS r)) (snd (Advanced.loop_body N stA r)).
Proof.
  intros (Himages & Hconv & Hmm). unfold Simple.loop_body, Advanced.loop_body.
  destruct r as [image|c d].
  - destruct (Simple_trigger_next_events N low high (Simple.imageCounter stS + 1)
                (Simple.camera stS)) as [e He].
    destruct (Simple.trigger_next N low high (Simple.imageCounter stS + 1) (Simple.camera stS))
      as [camera' evT]. cbn [snd] in He. subst evT.
    cbn [Simple.images Simple.myConverter Simple.mergeMertens Advanced.images
         Advanced.stitchedImage].
    rewrite Himages, Hconv, Hmm, CreateHDR_fusion_steps, fusion_steps_stateless.
    destruct (Z.of_nat (length (Advanced.images stA ++ [image])) =? N).
    + destruct (snd (fusion_steps _ _ (Advanced.images stA ++ [image]))) as [hdr|ex];
        cbn; repeat split; reflexivity.
    + cbn. repeat split; assumption || reflexivity.
  - rewrite Himages, Hconv, Hmm, CreateHDR_fusion_steps, fusion_steps_stateless.
    destruct (Z.of_nat (length (Advanced.images stA)) =? N).
    + destruct (snd (fusion_steps _ _ (Advanced.images stA))) as [hdr|ex];
        cbn; repeat split; reflexivity.
    + cbn. repeat split; assumption.
Qed.

Lemma loops_alike outcomes : forall stS stA,
  alike stS stA ->
  hdr_view (fst (grab_loop (Simple.loop_body N low high) stS outcomes)) =
    hdr_view (fst (grab_loop (Advanced.loop_body N) stA outcomes)) /\
  end_alike (snd (grab_loop (Simple.loop_body N low high) stS outcomes))
    (snd (grab_loop (Advanced.loop_body N) stA outcomes)).
Proof.
  induction outcomes as [|o rest IH]; intros stS stA Halike.
  - split; [reflexivity | exact Halike].
  - destruct o as [r|d]; [|split; reflexivity].
    destruct (turns_alike stS stA r Halike) as [Hview Hend].
    destruct (Simple.loop_body N low high stS r) as [evS [stS'|eS]] eqn:ES;
      destruct (Advanced.loop_body N stA r) as [evA [stA'|eA]] eqn:EA;
      cbn [fst snd end_alike] in Hview, Hend; try contradiction.
    + rewrite (grab_loop_cons_Ok _ _ _ _ _ _ ES), (grab_loop_cons_Ok _ _ _ _ _ _ EA).
      cbn [fst snd hdr_view is_hdr_output]. rewrite !hdr_view_app, Hview.
      destruct (IH stS' stA' Hend) as [IHv IHe]. rewrite IHv. auto.
    + rewrite (grab_loop_cons_Throw _ _ _ _ _ _ ES), (grab_loop_cons_Throw _ _ _ _ _ _ EA).
      cbn [fst snd hdr_view is_hdr_output end_alike]. auto.
Qed.

End Stateless.

(** X14 (the two programs show the same). With a converter and a merger
    whose calls leave their state as it was, the Simple program, which
    keeps one converter and one merger for the run, and the Advanced
    program, which creates them anew for every bracket, hand over the same
    brackets, display the same fused images in the same order, and end
    with the same exit status. *)
Theorem programs_show_the_same `{Libraries} N low high camera outcomes :
  stateless -> SequencerMode_IsWritable camera = true ->
  hdr_view (fst (Simple.main N low high camera outcomes)) =
    hdr_view (fst (Advanced.main N low high camera outcomes)) /\
  snd (Simple.main N low high camera outcomes) =
    snd (Advanced.main N low high camera outcomes).
Proof.
  intros Hstateless Hseq.
  unfold Advanced.main, Simple.main, Advanced.run, grab_and_exit. rewrite Hseq. cbn [negb].
  destruct (loops_alike N low high Hstateless outcomes (Simple.initial low camera)
              Advanced.initial) as [Hview Hend]; [repeat split|].
  destruct (grab_loop (Simple.loop_body N low high) (Simple.initial low camera) outcomes)
    as [evS [stS|eS]];
    destruct (grab_loop (Advanced.loop_body N) Advanced.initial outcomes) as [evA [stA|eA]];
    cbn [fst snd end_alike] in Hview, Hend; try contradiction.
  - cbn [app fst snd hdr_view is_hdr_output]. rewrite !hdr_view_app, Hview. auto.
  - subst eA. destruct eS as [d|d]; cbn [app fst snd hdr_view is_hdr_output];
      rewrite ?hdr_view_app, Hview; auto.
Qed.

(** ** How a run ends *)

Section LoopThrows.
Context {State : Type}.
Variable body : State -> GrabResult -> list Event * Result State.
Variable thrown : list CPylonImage -> Exception -> Prop.
Hypothesis Hthrow : forall st r ev e,
  body st r = (ev, Throw e) -> exists pre b, ev = pre ++ [EvFuse b] /\ thrown b e.

(** The loop is left by a time-out or by what the fusion of the bracket
    just handed over throws, and by nothing else. *)
Lemma grab_loop_throws outcomes : forall st ev e,
  grab_loop body st outcomes = (ev, Throw e) ->
  (exists d pre, e = GenericException d /\ ev = pre ++ [EvRetrieveResult (TimedOut d)]) \/
  (exists pre b, ev = pre ++ [EvFuse b] /\ thrown b e).
Proof.
  induction outcomes as [|o rest IH]; intros st ev e Hrun; [discriminate|].
  destruct o as [r|d].
  - destruct (body st r) as [ev1 [st1|e1]] eqn:E.
    + rewrite (grab_loop_cons_Ok _ _ _ _ _ _ E) in Hrun. injection Hrun as <- Hres.
      destruct (IH st1 (fst (grab_loop body st1 rest)) e) as
        [(d & pre & -> & Hev)|(pre & b & Hev & Hb)].
      { rewrite <- Hres. apply surjective_pairing. }
      * left. exists d, (EvRetrieveResult (Retrieved r) :: ev1 ++ pre).
        split; [reflexivity|]. rewrite Hev. cbn [app]. rewrite app_assoc. reflexivity.
      * right. exists (EvRetrieveResult (Retrieved r) :: ev1 ++ pre), b.
        split; [|exact Hb]. rewrite Hev. cbn [app]. rewrite app_assoc. reflexivity.
    + rewrite (grab_loop_cons_Throw _ _ _ _ _ _ E) in Hrun. injection Hrun as <- <-.
      destruct (Hthrow st r ev1 e1 E) as (pre & b & -> & Hb).
      right. exists (EvRetrieveResult (Retrieved r) :: pre), b. auto.
  - cbn in Hrun. injection Hrun as <- <-. left. exists d, []. auto.
Qed.

Lemma grab_and_exit_terminated st outcomes e :
  snd (grab_and_exit body st outcomes) = Terminated e ->
  exists d pre b,
    e = cv_Exception d /\ fst (grab_and_exit body st outcomes) = pre ++ [EvFuse b] /\
    thrown b e.
Proof.
  unfold grab_and_exit.
  destruct (grab_loop body st outcomes) as [ev [st'|[d|d]]] eqn:Hrun; cbn [fst snd];
    try discriminate.
  intros [= <-].
  destruct (grab_loop_throws outcomes st ev _ Hrun) as
    [(d' & pre & Hd & _)|(pre & b & -> & Hb)]; [discriminate|].
  exists d, ([EvStartGrabbing c_countOfImagesToGrab; EvTriggerSoftware] ++ pre), b.
  rewrite <- app_assoc. auto.
Qed.

End LoopThrows.

Section ProgramsThrow.
Context `{Libraries}.
Variables (N : Z) (low high : double).

Lemma Advanced_turn_throws st r ev e :
  Advanced.loop_body N st r = (ev, Throw e) ->
  exists pre b, ev = pre ++ [EvFuse b] /\ CreateHDR b empty_image = Throw e.
Proof.
  unfold Advanced.loop_body. destruct r as [image|c d]; cbn [Advanced.images].
  - destruct (Z.of_nat (length (Advanced.images st ++ [image])) =? N); [|discriminate].
    destruct (CreateHDR (Advanced.images st ++ [image]) empty_image) eqn:E; [discriminate|].
    intros [= <- <-]. eexists [_; _; _], _. split; [reflexivity | exact E].
  - destruct (Z.of_nat (length (Advanced.images st)) =? N); [|discriminate].
    destruct (CreateHDR (Advanced.images st) empty_image) eqn:E; [discriminate|].
    intros [= <- <-]. eexists [_; _], _. split; [reflexivity | exact E].
Qed.

Lemma Simple_turn_throws st r ev e :
  Simple.loop_body N low high st r = (ev, Throw e) ->
  exists pre b, ev = pre ++ [EvFuse b] /\
    exists conv mm, snd (fusion_steps conv mm b) = Throw e.
Proof.
  unfold Simple.loop_body. destruct r as [image|c d].
  - destruct (Simple_trigger_next_events N low high (Simple.imageCounter st + 1)
                (Simple.camera st)) as [e0 He].
    destruct (Simple.trigger_next N low high (Simple.imageCounter st + 1) (Simple.camera st))
      as [camera' evT]. cbn [snd] in He. subst evT.
    cbn [Simple.images Simple.myConverter Simple.mergeMertens].
    destruct (Z.of_nat (length (Simple.images st ++ [image])) =? N); [|discriminate].
    destruct (fusion_steps (Simple.myConverter st) (Simple.mergeMertens st)
                (Simple.images st ++ [image])) as [[conv' mm'] [hdr|ex]] eqn:E; [discriminate|].
    intros [= <- <-]. eexists [_; _; _], _. split; [reflexivity|].
    exists (Simple.myConverter st), (Simple.mergeMertens st). rewrite E. reflexivity.
  - destruct (Z.of_nat (length (Simple.images st)) =? N); [|discriminate].
    destruct (fusion_steps (Simple.myConverter st) (Simple.mergeMertens st)
                (Simple.images st)) as [[conv' mm'] [hdr|ex]] eqn:E; [discriminate|].
    intros [= <- <-]. eexists [_], _. split; [reflexivity|].
    exists (Simple.myConverter st), (Simple.mergeMertens st). rewrite E. reflexivity.
Qed.

End ProgramsThrow.

(** X16 (abnormal end). A run of either program ends outside [main] only
    through an exception of the merge library thrown while a bracket is
    being fused: the hand-over of that bracket is the last thing the run
    does, there is no report and no wait for Enter.  A time-out never
    ends a run this way. *)
Theorem abnormal_end_only_in_fusion `{Libraries} N low high camera outcomes e :
  (snd (Advanced.main N low high camera outcomes) = Terminated e ->
   exists d pre b,
     e = cv_Exception d /\
     fst (Advanced.main N low high camera outcomes) = pre ++ [EvFuse b] /\
     CreateHDR b empty_image = Throw e) /\
  (snd (Simple.main N low high camera outcomes) = Terminated e ->
   exists d pre b,
     e = cv_Exception d /\
     fst (Simple.main N low high camera outcomes) = pre ++ [EvFuse b] /\
     exists conv mm, snd (fusion_steps conv mm b) = Throw e).
Proof.
  split.
  - unfold Advanced.main. destruct (negb (SequencerMode_IsWritable camera)); [discriminate|].
    apply (grab_and_exit_terminated _ _ (Advanced_turn_throws N)).
  - unfold Simple.main.
    apply (grab_and_exit_terminated _ _ (Simple_turn_throws N low high)).
Qed.

(** What the loop of either program has done
    after an initial part of the stream is the beginning of what it does
    on the whole stream: later outcomes take nothing back. *)
Theorem loops_work_online `{Libraries} N low high camera pre rest :
  fst (grab_loop (Advanced.loop_body N) Advanced.initial pre)
    `prefix_of` fst (grab_loop (Advanced.loop_body N) Advanced.initial (pre ++ rest)) /\
  fst (grab_loop (Simple.loop_body N low high) (Simple.initial low camera) pre)
    `prefix_of`
    fst (grab_loop (Simple.loop_body N low high) (Simple.initial low camera) (pre ++ rest)).
Proof. split; apply grab_loop_prefix. Qed.

(** ** The further properties on concrete inputs *)

Section MoreWitnesses.
Import StandIn Runs MoreRuns.
Existing Instance StandIn.libraries.

Lemma exit_zero_means_stream_consumed_witness :
  snd (Advanced.main c_imagesPerHDR low high blank_camera one_bracket) = Returned 0 /\
  retrievals (fst (Advanced.main c_imagesPerHDR low high blank_camera one_bracket)) =
    one_bracket /\
  retrievals (fst (Simple.main c_imagesPerHDR low high blank_camera one_bracket)) =
    one_bracket.
Proof.
  destruct (exit_zero_means_stream_consumed c_imagesPerHDR low high blank_camera one_bracket)
    as [Hadvanced Hsimple].
  split; [reflexivity|]. split.
  - apply Hadvanced. reflexivity.
  - apply Hsimple. reflexivity.
Defined.

Lemma good_frames_conserved_witness :
  concat (fused advanced_five_events) ++ Advanced.images advanced_five_state =
    [dark; mid; bright; dark] /\
  concat (fused simple_five_events) ++ Simple.images simple_five_state =
    [dark; mid; bright; dark].
Proof.
  destruct (good_frames_conserved c_imagesPerHDR low high blank_camera five_results)
    as [Hadvanced Hsimple].
  split.
  - apply (Hadvanced advanced_five_events advanced_five_state). reflexivity.
  - apply (Hsimple simple_five_events simple_five_state). reflexivity.
Defined.

Lemma brackets_handed_over_witness :
  Z.of_nat (length (fused advanced_five_events)) = 4 / c_imagesPerHDR /\
  Z.of_nat (length (Simple.images simple_five_state)) = 4 mod c_imagesPerHDR.
Proof.
  destruct (brackets_handed_over c_imagesPerHDR low high blank_camera five_results
              ltac:(reflexivity)) as [Hadvanced Hsimple].
  split.
  - apply (Hadvanced advanced_five_events advanced_five_state). reflexivity.
  - apply (Hsimple simple_five_events simple_five_state). reflexivity.
Defined.

Lemma programs_assemble_alike_witness :
  fused advanced_five_events = fused simple_five_events /\
  Advanced.images advanced_five_state = Simple.images simple_five_state.
Proof.
  apply (programs_assemble_alike c_imagesPerHDR low high blank_camera five_results);
    reflexivity.
Defined.


Lemma simple_exposures_on_ramp_witness :
  Double.le low (Double.of_Z 33400) /\ Double.lt (Double.of_Z 33400) high.
Proof.
  destruct (simple_exposures_on_ramp c_imagesPerHDR low high blank_camera
              [Retrieved (GrabSucceeded dark)] (Double.of_Z 33400))
    as (k & Hk & _ & Hbounds & Hwhole).
  - unfold c_imagesPerHDR, INT_MAX. lia.
  - vm_compute. reflexivity.
  - apply list_elem_of_lookup. exists 3%nat. reflexivity.
  - apply Hbounds. apply (Hwhole 100 100000); [reflexivity | reflexivity | lia | lia |].
    exists 33300. reflexivity.
Defined.

(** With bounds whose midpoint lies between two [double]s (N = 2,
    low = 2^53 + 2, high = 2^53 + 4) the Simple program asks for the high
    exposure time itself after the first frame. *)
Example simple_exposure_rounded_up :
  Double.lt odd_low odd_high /\
  nth_error (fst (Simple.main 2 odd_low odd_high blank_camera
                    [Retrieved (GrabSucceeded dark)])) 3 =
    Some (EvExposureTime odd_high).
Proof. split; [vm_compute|]; reflexivity. Qed.

Lemma frames_in_flight_bounded_witness :
  peak_owed c_imagesPerHDR 0
    (fst (Advanced.main c_imagesPerHDR low high blank_camera one_bracket)) <= c_imagesPerHDR /\
  peak_owed 1 0 (fst (Simple.main c_imagesPerHDR low high blank_camera one_bracket)) <= 1.
Proof.
  apply (frames_in_flight_bounded c_imagesPerHDR low high blank_camera one_bracket).
  reflexivity.
Defined.

Lemma failed_frame_stalls_advanced_witness :
  device_consistent c_imagesPerHDR 0
    (fst (Advanced.main c_imagesPerHDR low high blank_camera broken_burst)) = true /\
  fused (fst (Advanced.main c_imagesPerHDR low high blank_camera broken_burst)) = [] /\
  triggers (fst (Advanced.main c_imagesPerHDR low high blank_camera broken_burst)) = 1%nat.
Proof.
  split; [reflexivity|].
  apply (failed_frame_stalls_advanced c_imagesPerHDR low high blank_camera
           [Retrieved (GrabSucceeded dark)] 3774873620 "incomplete buffer"
           [Retrieved (GrabSucceeded mid); TimedOut "Grab timed out."]
           advanced_first_events (Advanced.mkState 1 [dark] [dark]));
    reflexivity.
Defined.

Lemma sequence_program_cycles_witness :
  follow (sequencer_setup c_imagesPerHDR low high blank_camera) 4 0 = Some 1.
Proof.
  apply (sequence_program_cycles c_imagesPerHDR low high blank_camera 4).
  unfold c_imagesPerHDR, INT_MAX. lia.
Defined.


Lemma sequencer_setup_overwrites_witness :
  let used := sequencer_setup 5 high low blank_camera in
  SequencerSets (sequencer_setup c_imagesPerHDR low high used) !! 1 =
    SequencerSets (sequencer_setup c_imagesPerHDR low high blank_camera) !! 1 /\
  4 ∈ dom (SequencerSets (sequencer_setup c_imagesPerHDR low high used)).
Proof.
  intros used.
  destruct (sequencer_setup_overwrites c_imagesPerHDR low high used blank_camera
              ltac:(unfold c_imagesPerHDR, INT_MAX; lia)) as (Hsame & _ & Hkept).
  split; [apply Hsame; unfold c_imagesPerHDR; lia|].
  apply Hkept. apply elem_of_dom. vm_compute. eauto.
Defined.

Lemma fused_images_are_BGR8_witness :
  GetPixelType
    (mkPylonImage PixelType_BGR8packed 2 1
       [Byte.x0a; Byte.x0a; Byte.x0a; Byte.x14; Byte.x14; Byte.x14]) =
  PixelType_BGR8packed.
Proof.
  apply (proj1 (fused_images_are_BGR8 c_imagesPerHDR low high blank_camera one_bracket 0
                  (mkPylonImage PixelType_BGR8packed 2 1
                     [Byte.x0a; Byte.x0a; Byte.x0a; Byte.x14; Byte.x14; Byte.x14]))).
  apply list_elem_of_lookup. exists 13%nat. reflexivity.
Defined.

Lemma programs_show_the_same_witness :
  hdr_view (fst (Simple.main c_imagesPerHDR low high blank_camera one_bracket)) =
    hdr_view (fst (Advanced.main c_imagesPerHDR low high blank_camera one_bracket)) /\
  snd (Simple.main 2 low high blank_camera mismatched) =
    snd (Advanced.main 2 low high blank_camera mismatched).
Proof.
  assert (Hstateless : stateless).
  { split; [intros conv image; destruct conv; reflexivity|].
    intros mm images. destruct images as [|first rest]; [reflexivity|].
    cbn. destruct (forallb (same_geometry first) rest); reflexivity. }
  split.
  - apply (programs_show_the_same c_imagesPerHDR low high blank_camera one_bracket
             Hstateless eq_refl).
  - apply (programs_show_the_same 2 low high blank_camera mismatched Hstateless eq_refl).
Defined.

Lemma abnormal_end_only_in_fusion_witness :
  exists d pre b,
    cv_Exception "image dimensions differ" = cv_Exception d /\
    fst (Advanced.main 2 low high blank_camera mismatched) = pre ++ [EvFuse b] /\
    CreateHDR b empty_image = Throw (cv_Exception "image dimensions differ").
Proof.
  apply (proj1 (abnormal_end_only_in_fusion 2 low high blank_camera mismatched
                  (cv_Exception "image dimensions differ"))).
  reflexivity.
Defined.

End MoreWitnesses.
